(** * CCA-FR: the Odoo configuration module and the login page

    A shallow embedding of [src/config/odoo.js] (the configuration module
    read from [process.env]) and of the [LoginPage] React component that
    imports it, together with a model of the credential validator and the
    login operation of the authentication gateway, whose code is not part
    of the two source files and is therefore taken from the specification.

    JavaScript strings are sequences of UTF-16 code units; they are kept as
    [list N] so that [String.prototype.trim] and [String.prototype.split]
    can be written out on the data the engine really sees.  Object
    literals used as records of named fields ([process.env], the form
    state) are finite maps keyed by the property name. *)

From Stdlib Require Import List NArith Ascii String Lia.
From stdpp Require Import gmap strings list fin_maps.

Local Open Scope string_scope.
Local Open Scope list_scope.
Local Open Scope N_scope.

(* ===================================================================== *)
(** ** JavaScript strings *)
(* ===================================================================== *)

Module Js.

(** A JavaScript string value: its UTF-16 code units. *)
Abbreviation jsstring := (list N).

(** A string literal of the source text (the literals of this program are
    ASCII, so every character is one code unit). *)
Definition lit (s : string) : jsstring :=
  map N_of_ascii (list_ascii_of_string s).

(** ECMA-262 [WhiteSpace] and [LineTerminator] code points, the characters
    that [trim] strips: TAB, VT, FF, SP, NBSP, ZWNBSP, the Unicode
    [Space_Separator] category, and LF, CR, LS, PS. *)
Definition is_white_space (c : N) : bool :=
  (c =? 9) || (c =? 10) || (c =? 11) || (c =? 12) || (c =? 13) || (c =? 32)
  || (c =? 160) || (c =? 5760)
  || ((8192 <=? c) && (c <=? 8202))
  || (c =? 8232) || (c =? 8233) || (c =? 8239) || (c =? 8287)
  || (c =? 12288) || (c =? 65279).

(** [s.trimStart()] *)
Fixpoint trim_start (s : jsstring) : jsstring :=
  match s with
  | [] => []
  | c :: r => if is_white_space c then trim_start r else c :: r
  end.

(** [s.trimEnd()] *)
Fixpoint trim_end (s : jsstring) : jsstring :=
  match s with
  | [] => []
  | c :: r =>
      match trim_end r with
      | [] => if is_white_space c then [] else [c]
      | r' => c :: r'
      end
  end.

(** [s.trim()] *)
Definition trim (s : jsstring) : jsstring := trim_end (trim_start s).

(** [s.split(sep)] for a separator of one code unit: the pieces between
    the occurrences of [sep], in order; [n] occurrences give [n + 1]
    pieces, and the empty string gives one empty piece. *)
Fixpoint split (sep : N) (s : jsstring) : list jsstring :=
  match s with
  | [] => [[]]
  | c :: r =>
      if c =? sep then [] :: split sep r
      else match split sep r with
           | p :: ps => (c :: p) :: ps
           | [] => [[c]]
           end
  end.

(** [pieces.join(sep)], the inverse reading of [split]. *)
Fixpoint join (sep : N) (pieces : list jsstring) : jsstring :=
  match pieces with
  | [] => []
  | [p] => p
  | p :: ps => p ++ sep :: join sep ps
  end.

(** The code unit of [','] *)
Definition COMMA : N := 44.

(** Truthiness of a value that is a string or [undefined]. *)
Definition truthy (v : option jsstring) : bool :=
  match v with
  | Some (_ :: _) => true
  | _ => false
  end.

(** [v || d] where [v] is a string or [undefined] and [d] a string. *)
Definition or_else (v : option jsstring) (d : jsstring) : jsstring :=
  match v with
  | Some (c :: r) => c :: r
  | _ => d
  end.

End Js.
Import Js.

(* ===================================================================== *)
(** ** Effects *)
(* ===================================================================== *)

(** What the modelled code does to the outside: reading a variable of
    [process.env], calling the authentication entry point of the auth
    context, navigating, cancelling the browser's default form submission.
    [SendMail] is the effect of the e-mail collaborator, and [RemoteCall]
    a request to the ERP endpoint. *)
Inductive Effect : Type :=
  | EnvRead (var : string)
  | ConnectToOdoo (arg : gmap string jsstring)
  | Navigate (path : jsstring) (replace : bool)
  | PreventDefault
  | SendMail (sender recipient : jsstring)
  | RemoteCall (endpoint database username : jsstring).

(** A computation that appends to the log of effects. *)
Definition Eff (A : Type) : Type := list Effect -> A * list Effect.

Definition ret {A} (a : A) : Eff A := fun log => (a, log).

Definition bind {A B} (m : Eff A) (k : A -> Eff B) : Eff B :=
  fun log => let '(a, log') := m log in k a log'.

Definition emit (e : Effect) : Eff unit := fun log => (tt, log ++ [e]).

Notation "x <- m ;; k" := (bind m (fun x => k))
  (at level 100, m at next level, right associativity).

(* ===================================================================== *)
(** ** src/config/odoo.js *)
(* ===================================================================== *)

Module Odoo.

(** [process.env.NAME]: the variable's value, or [undefined]. *)
Definition getenv (env : gmap string jsstring) (var : string)
  : Eff (option jsstring) :=
  _ <- emit (EnvRead var) ;; ret (env !! var).

(** The bindings the module exports. *)
Record Config : Type := {
  ODOO_URL : jsstring;
  ODOO_DB : jsstring;
  DEFAULT_SENDER_EMAIL : jsstring;
  DEFAULT_SENDER_PASSWORD : jsstring;
  DEFAULT_SMTP_SERVER : jsstring;
  DEFAULT_SMTP_PORT : jsstring;
  ALLOWED_USER_EMAILS : list jsstring
}.

Definition default_allowed : list jsstring :=
  [lit "omar.elhasan@prezlab.com"; lit "sanad.zaqtan@prezlab.com"].

(** [process.env.NAME || 'default'] *)
Definition env_or (env : gmap string jsstring) (var : string) (d : jsstring)
  : Eff jsstring :=
  v <- getenv env var ;; ret (or_else v d).

(** The module body, evaluated once when the module is first imported:
    one [export const] after the other. *)
Definition load (env : gmap string jsstring) : Eff Config :=
  url <- env_or env "REACT_APP_ODOO_URL" (lit "https://prezlab.odoo.com/") ;;
  db <- env_or env "REACT_APP_ODOO_DB"
          (lit "odoo-ps-psae-prezlab-main-10779811") ;;
  sender <- env_or env "REACT_APP_DEFAULT_SENDER_EMAIL" (lit "") ;;
  password <- env_or env "REACT_APP_DEFAULT_SENDER_PASSWORD" (lit "") ;;
  server <- env_or env "REACT_APP_DEFAULT_SMTP_SERVER" (lit "smtp.gmail.com") ;;
  port <- env_or env "REACT_APP_DEFAULT_SMTP_PORT" (lit "587") ;;
  allowed <- getenv env "REACT_APP_ALLOWED_USER_EMAILS" ;;
  emails <-
    (if truthy allowed
     then again <- getenv env "REACT_APP_ALLOWED_USER_EMAILS" ;;
          ret (match again with
               | Some v => map trim (split COMMA v)
               | None => default_allowed (* not reached: just read as set *)
               end)
     else ret default_allowed) ;;
  ret {| ODOO_URL := url;
         ODOO_DB := db;
         DEFAULT_SENDER_EMAIL := sender;
         DEFAULT_SENDER_PASSWORD := password;
         DEFAULT_SMTP_SERVER := server;
         DEFAULT_SMTP_PORT := port;
         ALLOWED_USER_EMAILS := emails |}.

(** The configuration a process started in [env] holds. *)
Definition config (env : gmap string jsstring) : Config := fst (load env []).

(** A value bound by an export: a string or an array of strings. *)
Inductive Value : Type :=
  | VString (s : jsstring)
  | VArray (l : list jsstring).

(** The module namespace object: every exported name with its value. *)
Definition exports (c : Config) : gmap string Value :=
  <["ODOO_URL" := VString (ODOO_URL c)]>
  (<["ODOO_DB" := VString (ODOO_DB c)]>
  (<["DEFAULT_SENDER_EMAIL" := VString (DEFAULT_SENDER_EMAIL c)]>
  (<["DEFAULT_SENDER_PASSWORD" := VString (DEFAULT_SENDER_PASSWORD c)]>
  (<["DEFAULT_SMTP_SERVER" := VString (DEFAULT_SMTP_SERVER c)]>
  (<["DEFAULT_SMTP_PORT" := VString (DEFAULT_SMTP_PORT c)]>
  (<["ALLOWED_USER_EMAILS" := VArray (ALLOWED_USER_EMAILS c)]> ∅)))))).

End Odoo.
Import Odoo.

(* ===================================================================== *)
(** ** The login page (the [LoginPage] component) *)
(* ===================================================================== *)

Module LoginPage.

(** What [useAuth()] hands to the component.  [connectToOdoo] is the
    fourth member; calling it is the effect [ConnectToOdoo]. *)
Record AuthContext : Type := {
  isConnected : bool;
  isLoading : bool;
  error : option jsstring
}.

(** The two [useState] cells. *)
Record PageState : Type := {
  form : gmap string jsstring;
  showPassword : bool
}.

(** The running application: the configuration module's bindings, the
    auth context as last rendered, the component's state, and the log of
    effects so far (oldest first). *)
Record App : Type := {
  cfg : Config;
  auth : AuthContext;
  page : PageState;
  log : list Effect
}.

(** An [<Input>] of the rendered tree with the props the page gives it.
    The [Input] component itself is imported from [components/ui/Input];
    it is taken to put these props on the [<input>] it renders, so that a
    change event carries the [name] given here. *)
Record InputEl : Type := {
  name : string;
  type : option string;
  value : option jsstring;
  placeholder : string;
  required : bool
}.

(** The initial value given to [useState] for the form. *)
Definition initial_form (c : Config) : gmap string jsstring :=
  <["url" := ODOO_URL c]>
  (<["database" := ODOO_DB c]>
  (<["username" := lit ""]>
  (<["password" := lit ""]> ∅))).

(** The inputs of the returned JSX, in document order. *)
Definition render_inputs (p : PageState) : list InputEl :=
  [ {| name := "username"; type := None;
       value := form p !! "username";
       placeholder := "your.email@company.com"; required := true |};
    {| name := "password";
       type := Some (if showPassword p then "text" else "password");
       value := form p !! "password";
       placeholder := "Your Odoo password"; required := true |} ].

(** [setForm((prev) => ({ ...prev, [name]: value }))] *)
Definition handleChange (target_name : string) (target_value : jsstring)
  (p : PageState) : PageState :=
  {| form := <[target_name := target_value]> (form p);
     showPassword := showPassword p |}.

(** [setShowPassword((s) => !s)] *)
Definition toggleShowPassword (p : PageState) : PageState :=
  {| form := form p; showPassword := negb (showPassword p) |}.

(** [e.preventDefault(); await connectToOdoo(form);] *)
Definition handleSubmit (p : PageState) : Eff unit :=
  _ <- emit PreventDefault ;; emit (ConnectToOdoo (form p)).

(** The body of the [useEffect]: leave the page once connected. *)
Definition redirectEffect (a : AuthContext) : Eff unit :=
  if isConnected a then emit (Navigate (lit "/") true) else ret tt.

(** The effect runs after the first render and after a render in which
    [isConnected] differs from the previous one ([navigate] is stable). *)
Definition rerunEffect (before after : AuthContext) : Eff unit :=
  if bool_decide (isConnected before = isConnected after) then ret tt
  else redirectEffect after.

(** What can happen to a mounted page: a change event on the [i]-th
    rendered input carrying the new text, a click on the show/hide button,
    a submit event on the form, and a new value of the auth context. *)
Inductive Event : Type :=
  | Change (i : nat) (text : jsstring)
  | ClickShow
  | Submit
  | AuthChanged (a : AuthContext).

(** Importing the module and mounting the page. *)
Definition mount (env : gmap string jsstring) (a : AuthContext) : App :=
  let '(c, l) := load env [] in
  {| cfg := c; auth := a;
     page := {| form := initial_form c; showPassword := false |};
     log := snd (redirectEffect a l) |}.

(** One event.  A change event reaches [handleChange] with the name of the
    input it was fired on, and there is no input beyond the rendered ones.
    The handlers see the state of the latest render.  The browser holds a
    submit event back while a required input is empty or the submit button
    is disabled; the model lets it through always, which only adds runs. *)
Definition dispatch (ev : Event) (s : App) : App :=
  match ev with
  | Change i text =>
      match render_inputs (page s) !! i with
      | Some el =>
          {| cfg := cfg s; auth := auth s;
             page := handleChange (name el) text (page s); log := log s |}
      | None => s
      end
  | ClickShow =>
      {| cfg := cfg s; auth := auth s;
         page := toggleShowPassword (page s); log := log s |}
  | Submit =>
      {| cfg := cfg s; auth := auth s; page := page s;
         log := snd (handleSubmit (page s) (log s)) |}
  | AuthChanged a =>
      {| cfg := cfg s; auth := a; page := page s;
         log := snd (rerunEffect (auth s) a (log s)) |}
  end.

(** A sequence of events, first to last. *)
Definition run (evs : list Event) (s : App) : App :=
  fold_left (fun s ev => dispatch ev s) evs s.

(** The states a process started in [env] can be in. *)
Inductive reachable (env : gmap string jsstring) : App -> Prop :=
  | reach_mount a : reachable env (mount env a)
  | reach_step s ev : reachable env s -> reachable env (dispatch ev s).

(** The arguments of the calls of [connectToOdoo] in a log. *)
Definition submitted (l : list Effect) : list (gmap string jsstring) :=
  omap (fun e => match e with ConnectToOdoo f => Some f | _ => None end) l.

End LoginPage.
Import LoginPage.

(* ===================================================================== *)
(** ** The authentication gateway *)
(* ===================================================================== *)

(** The validator and the login operation are not in [src/]: the page only
    calls [connectToOdoo] of the auth context.  They are modelled here from
    sections 4.1, 4.2 and 4.4 of the specification. *)
Module Gateway.

(** Modelled from the spec: the failures of [authenticate] (sections 4.2
    and 7). *)
Inductive AuthError : Type :=
  | InvalidCredentials
  | TransportError
  | ProtocolError.

(** Modelled from the spec: the Credential of section 3,
    {endpoint URL, database name, username, secret}. *)
Record Credential : Type := {
  endpoint : jsstring;
  database : jsstring;
  username : jsstring;
  secret : jsstring
}.

(** Modelled from the spec: the ErpSession of section 3. *)
Record ErpSession : Type := {
  token : jsstring;
  session_endpoint : jsstring;
  session_database : jsstring;
  identity : jsstring;
  created : N;
  last_used : N
}.

(** Modelled from the spec: what [login] reports (sections 4.4 and 7): a
    session identifier, [Forbidden], or the kind of failure. *)
Inductive LoginResult : Type :=
  | LoggedIn (session_id : N)
  | Forbidden
  | Failed (e : AuthError).

(** Modelled from the spec: the state of the gateway is the Session Store
    (sessions by identifier) and the remote calls issued so far. *)
Record State : Type := {
  sessions : gmap N ErpSession;
  effects : list Effect
}.

(** Modelled from the spec: the Credential Validator of section 4.1,
    [validate(username) -> allowed]: "Comparison is case-insensitive
    against AllowList. No side effects. Returns false for empty/malformed
    input."  The validator itself is missing from [src/]; what the spec
    leaves open is a parameter: [lowercase] is the case folding and
    [malformed] the inputs rejected as empty or malformed. *)
Definition validate (lowercase : jsstring -> jsstring)
  (malformed : jsstring -> bool) (allow : list jsstring) (u : jsstring)
  : bool :=
  negb (malformed u)
  && existsb (fun e => bool_decide (lowercase u = lowercase e)) allow.

(** Modelled from the spec: [authenticate] of the ERP Session Client
    (section 4.2), which is missing from [src/].  It performs the remote
    call; the ERP server's answer is the parameter [remote]. *)
Definition authenticate (remote : Credential -> AuthError + jsstring)
  (now : N) (c : Credential) : Eff (AuthError + ErpSession) :=
  _ <- emit (RemoteCall (endpoint c) (database c) (username c)) ;;
  ret (match remote c with
       | inl e => inl e
       | inr tok =>
           inr {| token := tok; session_endpoint := endpoint c;
                  session_database := database c; identity := username c;
                  created := now; last_used := now |}
       end).

(** Modelled from the spec: the [login] transition of the Auth Gateway
    (section 4.4 and the data flow of section 2), which is missing from
    [src/]: the validator first (fail fast), then the remote handshake,
    then the Session Store entry.  [sid] is the identifier drawn for this
    login. *)
Definition login (lowercase : jsstring -> jsstring)
  (malformed : jsstring -> bool) (allow : list jsstring)
  (remote : Credential -> AuthError + jsstring)
  (sid now : N) (c : Credential) (g : State) : LoginResult * State :=
  if validate lowercase malformed allow (username c) then
    let '(r, l) := authenticate remote now c (effects g) in
    match r with
    | inl e => (Failed e, {| sessions := sessions g; effects := l |})
    | inr session =>
        (LoggedIn sid,
         {| sessions := <[sid := session]> (sessions g); effects := l |})
    end
  else (Forbidden, g).

(** The remote calls of a log. *)
Definition remote_calls (l : list Effect) : list Effect :=
  List.filter
    (fun e => match e with RemoteCall _ _ _ => true | _ => false end) l.

(** A case folding to run the validator with: the ASCII part of
    [String.prototype.toLowerCase]. *)
Definition to_lower_ascii (s : jsstring) : jsstring :=
  map (fun c => if (65 <=? c) && (c <=? 90) then c + 32 else c) s.

(** The least reading of "empty/malformed" to run the validator with:
    only the empty string. *)
Definition is_empty_input (u : jsstring) : bool :=
  match u with
  | [] => true
  | _ => false
  end.

(** Modelled from the spec: the inputs for which [validate] "returns false
    for empty/malformed input" (section 4.1): the empty string, which the
    spec names, and whatever else counts as malformed, which it leaves
    open ([malformed]). *)
Definition rejected_input (malformed : jsstring -> bool) (u : jsstring)
  : bool :=
  is_empty_input u || malformed u.

(** Modelled from the spec: the Credential Validator of section 4.1 with
    both of its sentences: the comparison against the allow-list up to
    the case of the letters of an address (the ASCII letters), and [false]
    for empty or malformed input. *)
Definition validate_username (malformed : jsstring -> bool)
  (allow : list jsstring) (u : jsstring) : bool :=
  validate to_lower_ascii (rejected_input malformed) allow u.

(** Two code units that are the same letter in either case, or the same
    code unit. *)
Definition same_letter (a b : N) : Prop :=
  a = b \/ (65 <= a <= 90 /\ b = a + 32) \/ (65 <= b <= 90 /\ a = b + 32).

(** Two strings that differ in the case of their letters only. *)
Definition differs_in_case_only (u e : jsstring) : Prop :=
  Forall2 same_letter u e.

End Gateway.
Import Gateway.

(* ===================================================================== *)
(** ** Properties stated by the specification *)
(* ===================================================================== *)

(** [t] is [s] without its leading and trailing white space. *)
Definition trimmed_of (s t : jsstring) : Prop :=
  exists l r,
    s = l ++ t ++ r
    /\ Forall (fun c => is_white_space c = true) l
    /\ Forall (fun c => is_white_space c = true) r
    /\ (forall c, head t = Some c -> is_white_space c = false)
    /\ (forall c, last t = Some c -> is_white_space c = false).

(** The number of occurrences of a code unit. *)
Definition occurrences (sep : N) (s : jsstring) : nat :=
  count_occ N.eq_dec s sep.

(** The options the specification enumerates for the configuration. *)
Inductive SpecOption : Type :=
  | DefaultEndpoint
  | DefaultDatabase
  | AllowList
  | IdleTimeout
  | CallTimeout.

Definition spec_options : list SpecOption :=
  [DefaultEndpoint; DefaultDatabase; AllowList; IdleTimeout; CallTimeout].

(** "The configuration consists of exactly the enumerated options": the
    options, under some naming [f], are the names the module defines. *)
Definition consists_exactly_of (names : gset string) : Prop :=
  exists f : SpecOption -> string,
    forall n, n ∈ names <-> exists o, o ∈ spec_options /\ f o = n.

(** The names [src/config/odoo.js] exports. *)
Definition odoo_names : gset string :=
  {[ "ODOO_URL"; "ODOO_DB"; "DEFAULT_SENDER_EMAIL"; "DEFAULT_SENDER_PASSWORD";
     "DEFAULT_SMTP_SERVER"; "DEFAULT_SMTP_PORT"; "ALLOWED_USER_EMAILS" ]}.

(** The environment variables the module body reads. *)
Definition odoo_variables : gset string :=
  {[ "REACT_APP_ODOO_URL"; "REACT_APP_ODOO_DB";
     "REACT_APP_DEFAULT_SENDER_EMAIL"; "REACT_APP_DEFAULT_SENDER_PASSWORD";
     "REACT_APP_DEFAULT_SMTP_SERVER"; "REACT_APP_DEFAULT_SMTP_PORT";
     "REACT_APP_ALLOWED_USER_EMAILS" ]}.

(** The variables the module body reads, in order: one per export, and
    the allow-list variable a second time when it is set. *)
Definition load_reads (env : gmap string jsstring) : list string :=
  [ "REACT_APP_ODOO_URL"; "REACT_APP_ODOO_DB";
    "REACT_APP_DEFAULT_SENDER_EMAIL"; "REACT_APP_DEFAULT_SENDER_PASSWORD";
    "REACT_APP_DEFAULT_SMTP_SERVER"; "REACT_APP_DEFAULT_SMTP_PORT";
    "REACT_APP_ALLOWED_USER_EMAILS" ]
  ++ (if truthy (env !! "REACT_APP_ALLOWED_USER_EMAILS")
      then ["REACT_APP_ALLOWED_USER_EMAILS"] else []).

(** The variables read in a log. *)
Definition variables_read (l : list Effect) : list string :=
  omap (fun e => match e with EnvRead v => Some v | _ => None end) l.

(** The effects the page itself can cause. *)
Definition page_effect (e : Effect) : Prop :=
  match e with
  | ConnectToOdoo _ | Navigate _ _ | PreventDefault => True
  | _ => False
  end.

(** The fields of the form state. *)
Definition form_fields : gset string :=
  {[ "url"; "database"; "username"; "password" ]}.

(** "validate(u) is true iff some allow-list entry equals u up to case" *)
Definition accepts_exactly_up_to_case (lowercase : jsstring -> jsstring)
  (allow : list jsstring) (v : jsstring -> bool) : Prop :=
  forall u, v u = true <-> exists e, e ∈ allow /\ lowercase u = lowercase e.

(** What holds of every state of the page. *)
Record page_invariant (env : gmap string jsstring) (s : App) : Prop := {
  inv_cfg : cfg s = config env;
  inv_url : form (page s) !! "url" = Some (ODOO_URL (config env));
  inv_database : form (page s) !! "database" = Some (ODOO_DB (config env));
  inv_fields : dom (form (page s)) = form_fields;
  inv_submitted :
    forall f, f ∈ submitted (log s) ->
      f !! "url" = Some (ODOO_URL (config env))
      /\ f !! "database" = Some (ODOO_DB (config env))
      /\ dom f = form_fields;
  inv_log :
    exists rest, log s = snd (load env []) ++ rest /\ Forall page_effect rest
}.

(** Sample environments and inputs. *)
Definition env_trailing_comma : gmap string jsstring :=
  {[ "REACT_APP_ALLOWED_USER_EMAILS" := lit "alice@example.com," ]}.

Definition env_spaced : gmap string jsstring :=
  {[ "REACT_APP_ALLOWED_USER_EMAILS" := lit " a@b.com ,, C@d.com" ]}.

Definition anonymous : AuthContext :=
  {| isConnected := false; isLoading := false; error := None |}.

(** A login request of Mallory, who is not on the default allow-list. *)
Definition mallory : Credential :=
  {| endpoint := lit "https://example.odoo.com/"; database := lit "demo";
     username := lit "mallory@example.com"; secret := lit "correct" |}.

(** An ERP server that accepts every credential. *)
Definition accept_all (c : Credential) : AuthError + jsstring :=
  inr (lit "token").

Definition no_sessions : State := {| sessions := ∅; effects := [] |}.

(** What [||] and the conditional see of a variable: an unset and an
    empty variable are the same to them. *)
Definition effective (v : option jsstring) : option jsstring :=
  match v with
  | Some (c :: r) => Some (c :: r)
  | _ => None
  end.

(** [e] occurs in [v] as a run of consecutive code units. *)
Definition infix_of (e v : jsstring) : Prop :=
  exists l r, v = l ++ e ++ r.

(** An entry as [split] and [trim] leave it: no comma inside and no white
    space at either end. *)
Definition clean_entry (e : jsstring) : Prop :=
  (COMMA ∉ e)
  /\ (forall c, head e = Some c -> is_white_space c = false)
  /\ (forall c, last e = Some c -> is_white_space c = false).

(** The submit events and the clicks on the show/hide button of a run. *)
Definition submits (evs : list Event) : nat :=
  length (List.filter
            (fun ev => match ev with Submit => true | _ => false end) evs).

Definition clicks (evs : list Event) : nat :=
  length (List.filter
            (fun ev => match ev with ClickShow => true | _ => false end) evs).

(** The navigations of a log. *)
Definition navigations (l : list Effect) : list (jsstring * bool) :=
  omap (fun e => match e with Navigate p r => Some (p, r) | _ => None end) l.

(** No auth context of the run reports a connection. *)
Definition never_connected (a : AuthContext) (evs : list Event) : Prop :=
  isConnected a = false
  /\ forall a', AuthChanged a' ∈ evs -> isConnected a' = false.

(** The request built from a user name and a password. *)
Definition request (c : Config) (user pass : jsstring)
  : gmap string jsstring :=
  <["url" := ODOO_URL c]>
  (<["database" := ODOO_DB c]>
  (<["username" := user]>
  (<["password" := pass]> ∅))).

(** An environment with a spaced-out allow-list and an empty variable. *)
Definition env_blank_url : gmap string jsstring :=
  <["REACT_APP_ODOO_URL" := lit ""]> env_spaced.

Definition connected : AuthContext :=
  {| isConnected := true; isLoading := false; error := None |}.

(* ===================================================================== *)
(** ** Facts about [split], [join] and [trim] *)
(* ===================================================================== *)

Local Close Scope N_scope.
Local Open Scope nat_scope.

Section SplitFacts.
Variable sep : N.

Lemma split_not_nil (s : jsstring) : split sep s <> [].
Proof.
  destruct s as [|c r]; simpl; [discriminate|].
  destruct (c =? sep)%N; [discriminate|].
  destruct (split sep r); discriminate.
Qed.

Lemma join_cons (p : jsstring) (ps : list jsstring) :
  ps <> [] -> join sep (p :: ps) = p ++ sep :: join sep ps.
Proof. destruct ps; [congruence | reflexivity]. Qed.

(** Gluing the pieces back with the separator gives the string. *)
Lemma join_split (s : jsstring) : join sep (split sep s) = s.
Proof.
  induction s as [|c r IH]; [reflexivity|].
  simpl split. destruct (N.eqb_spec c sep) as [->|Hne].
  - rewrite join_cons by apply split_not_nil. simpl. by rewrite IH.
  - pose proof (split_not_nil r) as Hnil.
    destruct (split sep r) as [|p ps]; [congruence|].
    destruct ps as [|q qs]; simpl in *; by rewrite <- IH.
Qed.

(** No piece holds the separator. *)
Lemma split_pieces_free (s : jsstring) :
  Forall (fun p => sep ∉ p) (split sep s).
Proof.
  induction s as [|c r IH]; simpl.
  - repeat constructor. apply not_elem_of_nil.
  - destruct (N.eqb_spec c sep) as [->|Hne].
    + constructor; [apply not_elem_of_nil | exact IH].
    + destruct (split sep r) as [|p ps].
      * repeat constructor.
        rewrite not_elem_of_cons. split; [congruence | apply not_elem_of_nil].
      * inversion IH; subst. constructor; [|assumption].
        rewrite not_elem_of_cons. split; [congruence | assumption].
Qed.

(** [n] separators give [n + 1] pieces: nothing is dropped. *)
Lemma split_length (s : jsstring) :
  length (split sep s) = S (occurrences sep s).
Proof.
  unfold occurrences. induction s as [|c r IH]; [reflexivity|].
  simpl split. simpl count_occ.
  destruct (N.eqb_spec c sep) as [->|Hne].
  - destruct (N.eq_dec sep sep); [|congruence]. simpl. by rewrite IH.
  - destruct (N.eq_dec c sep); [congruence|].
    pose proof (split_not_nil r) as Hnil.
    destruct (split sep r); [congruence|]. exact IH.
Qed.

End SplitFacts.

Lemma trim_start_spec (s : jsstring) :
  exists l, s = l ++ trim_start s
            /\ Forall (fun c => is_white_space c = true) l
            /\ (forall c, head (trim_start s) = Some c ->
                          is_white_space c = false).
Proof.
  induction s as [|c r (l & Hs & Hl & Hh)]; simpl.
  - exists []. split_and!; [done | constructor | discriminate].
  - destruct (is_white_space c) eqn:Hc.
    + exists (c :: l).
      split_and!; [simpl; by f_equal | by constructor | exact Hh].
    + exists []. split_and!; [done | constructor |]. simpl. congruence.
Qed.

Lemma trim_end_spec (s : jsstring) :
  exists r, s = trim_end s ++ r
            /\ Forall (fun c => is_white_space c = true) r
            /\ (forall c, last (trim_end s) = Some c ->
                          is_white_space c = false).
Proof.
  induction s as [|c t (r & Hs & Hr & Hl)]; simpl.
  - exists []. split_and!; [done | constructor | discriminate].
  - destruct (trim_end t) as [|d t'] eqn:Ht; simpl in Hs.
    + destruct (is_white_space c) eqn:Hc.
      * exists (c :: r).
        split_and!; [simpl; by f_equal | by constructor | discriminate].
      * exists r. split_and!; [simpl; by f_equal | exact Hr |].
        simpl. congruence.
    + exists r. split_and!; [simpl; by f_equal | exact Hr |].
      intros x Hx. apply Hl. by rewrite last_cons_cons in Hx.
Qed.

(** Trimming the end keeps the first character of what is left. *)
Lemma trim_end_head (s : jsstring) (c : N) :
  head (trim_end s) = Some c -> head s = Some c.
Proof.
  destruct s as [|d r]; simpl; [discriminate|].
  destruct (trim_end r); [destruct (is_white_space d)|]; simpl; congruence.
Qed.

(** [trim] removes exactly the white space around the string. *)
Lemma trim_spec (s : jsstring) : trimmed_of s (trim s).
Proof.
  unfold trimmed_of, trim.
  destruct (trim_start_spec s) as (l & Hs & Hl & Hh).
  destruct (trim_end_spec (trim_start s)) as (r & Ht & Hr & Hlast).
  exists l, r. split_and!; [| exact Hl | exact Hr | | exact Hlast].
  - by rewrite <- Ht.
  - intros c Hc. apply Hh. by apply trim_end_head.
Qed.

Example split_keeps_empty_pieces :
  split COMMA (lit "a,,b,") = [lit "a"; lit ""; lit "b"; lit ""].
Proof. reflexivity. Qed.

Example trim_strips_both_ends :
  trim ([32; 9] ++ lit "a b" ++ [160; 10])%N = lit "a b".
Proof. reflexivity. Qed.

Example trim_all_white_space : trim [32; 8232; 12288]%N = [].
Proof. reflexivity. Qed.

(* ===================================================================== *)
(** ** The configuration module *)
(* ===================================================================== *)

(** The module body only reads [process.env]: its log is the reads, in
    source order, after whatever was logged before. *)
Lemma load_eq (env : gmap string jsstring) (l0 : list Effect) :
  load env l0 = (config env, l0 ++ map EnvRead (load_reads env)).
Proof.
  unfold config, load_reads, load, env_or, getenv, bind, emit, ret.
  destruct (truthy (env !! "REACT_APP_ALLOWED_USER_EMAILS")); simpl;
    by rewrite <- !app_assoc.
Qed.

Lemma load_log (env : gmap string jsstring) (l0 : list Effect) :
  snd (load env l0) = l0 ++ snd (load env []).
Proof. by rewrite !load_eq. Qed.

Lemma config_allowed (env : gmap string jsstring) :
  ALLOWED_USER_EMAILS (config env) =
    match env !! "REACT_APP_ALLOWED_USER_EMAILS" with
    | Some (c :: r) => map trim (split COMMA (c :: r))
    | _ => default_allowed
    end.
Proof.
  unfold config, load, env_or, getenv, bind, emit, ret.
  destruct (env !! "REACT_APP_ALLOWED_USER_EMAILS") as [[|c r]|];
    reflexivity.
Qed.

(** Each export is its variable's value, or its default when the variable
    is unset or empty. *)
Lemma config_strings (env : gmap string jsstring) :
  ODOO_URL (config env)
  = or_else (env !! "REACT_APP_ODOO_URL") (lit "https://prezlab.odoo.com/")
  /\ ODOO_DB (config env)
     = or_else (env !! "REACT_APP_ODOO_DB")
         (lit "odoo-ps-psae-prezlab-main-10779811")
  /\ DEFAULT_SENDER_EMAIL (config env)
     = or_else (env !! "REACT_APP_DEFAULT_SENDER_EMAIL") (lit "")
  /\ DEFAULT_SENDER_PASSWORD (config env)
     = or_else (env !! "REACT_APP_DEFAULT_SENDER_PASSWORD") (lit "")
  /\ DEFAULT_SMTP_SERVER (config env)
     = or_else (env !! "REACT_APP_DEFAULT_SMTP_SERVER") (lit "smtp.gmail.com")
  /\ DEFAULT_SMTP_PORT (config env)
     = or_else (env !! "REACT_APP_DEFAULT_SMTP_PORT") (lit "587").
Proof.
  unfold config, load, env_or, getenv, bind, emit, ret.
  destruct (truthy (env !! "REACT_APP_ALLOWED_USER_EMAILS"));
    split_and!; reflexivity.
Qed.

Lemma dom_exports (c : Config) : dom (exports c) = odoo_names.
Proof.
  unfold exports, odoo_names. rewrite !dom_insert_L, dom_empty_L.
  set_solver.
Qed.

Lemma size_union_le (X Y : gset string) : size (X ∪ Y) ≤ size X + size Y.
Proof.
  rewrite size_union_alt.
  assert (size (Y ∖ X) ≤ size Y)
    by (apply subseteq_size, subseteq_difference_l; reflexivity).
  lia.
Qed.

Lemma size_five (a b c d e : string) :
  size ({[a]} ∪ ({[b]} ∪ ({[c]} ∪ ({[d]} ∪ {[e]}))) : gset string) ≤ 5.
Proof.
  pose proof (size_union_le {[a]} ({[b]} ∪ ({[c]} ∪ ({[d]} ∪ {[e]})))).
  pose proof (size_union_le {[b]} ({[c]} ∪ ({[d]} ∪ {[e]}))).
  pose proof (size_union_le {[c]} ({[d]} ∪ {[e]})).
  pose proof (size_union_le {[d]} {[e]}).
  rewrite !size_singleton in *. lia.
Qed.

Lemma size_odoo_names : size odoo_names = 7%nat.
Proof. reflexivity. Qed.

(* ===================================================================== *)
(** ** The login page: what every state satisfies *)
(* ===================================================================== *)

Lemma submitted_app (l1 l2 : list Effect) :
  submitted (l1 ++ l2) = submitted l1 ++ submitted l2.
Proof. apply omap_app. Qed.

Lemma submitted_reads (vars : list string) : submitted (map EnvRead vars) = [].
Proof. induction vars; [reflexivity | assumption]. Qed.

Lemma redirect_log (a : AuthContext) (l : list Effect) :
  exists rest, snd (redirectEffect a l) = l ++ rest
               /\ Forall page_effect rest /\ submitted rest = [].
Proof.
  unfold redirectEffect, emit, ret. destruct (isConnected a); simpl.
  - exists [Navigate (lit "/") true]. split_and!; [done | | done].
    by repeat constructor.
  - exists []. by rewrite app_nil_r.
Qed.

Lemma rerun_log (before after : AuthContext) (l : list Effect) :
  exists rest, snd (rerunEffect before after l) = l ++ rest
               /\ Forall page_effect rest /\ submitted rest = [].
Proof.
  unfold rerunEffect. case_bool_decide; [|apply redirect_log].
  exists []. by rewrite app_nil_r.
Qed.

Lemma submit_log (p : PageState) (l : list Effect) :
  snd (handleSubmit p l) = l ++ [PreventDefault; ConnectToOdoo (form p)].
Proof.
  unfold handleSubmit, bind, emit. simpl. by rewrite <- app_assoc.
Qed.

Lemma dom_initial_form (c : Config) : dom (initial_form c) = form_fields.
Proof.
  unfold initial_form, form_fields. rewrite !dom_insert_L, dom_empty_L.
  set_solver.
Qed.

(** The rendered inputs are the username and the password input. *)
Lemma rendered_names (p : PageState) (i : nat) (el : InputEl) :
  render_inputs p !! i = Some el ->
  name el = "username" \/ name el = "password".
Proof.
  destruct i as [|[|i]]; simpl; intros H; inversion H; subst; auto.
Qed.

(** [handleChange] writes the named field and no other. *)
Lemma handleChange_other (n k : string) (v : jsstring) (p : PageState) :
  k <> n -> form (handleChange n v p) !! k = form p !! k.
Proof. intros Hne. simpl. by apply lookup_insert_ne. Qed.

Lemma handleChange_same (n : string) (v : jsstring) (p : PageState) :
  form (handleChange n v p) !! n = Some v.
Proof. simpl. apply lookup_insert_eq. Qed.

Lemma mount_eq (env : gmap string jsstring) (a : AuthContext) :
  mount env a =
    {| cfg := config env; auth := a;
       page := {| form := initial_form (config env); showPassword := false |};
       log := snd (redirectEffect a (map EnvRead (load_reads env))) |}.
Proof. unfold mount. by rewrite load_eq. Qed.

Lemma mount_invariant (env : gmap string jsstring) (a : AuthContext) :
  page_invariant env (mount env a).
Proof.
  rewrite mount_eq.
  destruct (redirect_log a (map EnvRead (load_reads env)))
    as (rest & -> & Hrest & Hsub).
  constructor; cbn [cfg page form log].
  - reflexivity.
  - reflexivity.
  - reflexivity.
  - apply dom_initial_form.
  - intros f. rewrite submitted_app, submitted_reads, Hsub.
    intros Hf. by apply elem_of_nil in Hf.
  - exists rest. by rewrite load_eq.
Qed.

Lemma username_password_fields (n : string) :
  n = "username" \/ n = "password" ->
  n <> "url" /\ n <> "database" /\ {[n]} ∪ form_fields = form_fields.
Proof.
  unfold form_fields. intros [-> | ->]; split_and!; try discriminate;
    apply set_eq; intros k; rewrite !elem_of_union, !elem_of_singleton;
    tauto.
Qed.

Ltac page_fields := cbn [dispatch cfg auth page log form handleChange
                         toggleShowPassword].

Lemma dispatch_invariant (env : gmap string jsstring) (ev : Event) (s : App) :
  page_invariant env s -> page_invariant env (dispatch ev s).
Proof.
  intros [Hcfg Hurl Hdb Hdom Hsub (rest & Hlog & Hrest)].
  destruct ev as [i text| | |a]; page_fields.
  - destruct (render_inputs (page s) !! i) as [el|] eqn:Hel;
      [|by constructor; eauto].
    destruct (username_password_fields (name el)) as (Hn1 & Hn2 & Hfields);
      [by eapply rendered_names|].
    constructor; page_fields; eauto.
    + by rewrite lookup_insert_ne.
    + by rewrite lookup_insert_ne.
    + by rewrite dom_insert_L, Hdom.
  - constructor; page_fields; eauto.
  - constructor; page_fields; eauto.
    + intros f. rewrite submit_log, submitted_app.
      change (submitted [PreventDefault; ConnectToOdoo (form (page s))])
        with [form (page s)].
      rewrite elem_of_app, list_elem_of_singleton.
      intros [Hf | ->]; [by apply Hsub | done].
    + exists (rest ++ [PreventDefault; ConnectToOdoo (form (page s))]).
      rewrite submit_log, Hlog, <- app_assoc. split; [done|].
      apply Forall_app. split; [done | by repeat constructor].
  - destruct (rerun_log (auth s) a (log s)) as (more & Hmore & Hpage & Hnone).
    constructor; page_fields; eauto.
    + intros f. rewrite Hmore, submitted_app, Hnone, app_nil_r. apply Hsub.
    + exists (rest ++ more). rewrite Hmore, Hlog, <- app_assoc.
      split; [done|]. by apply Forall_app.
Qed.

(** Every reachable state satisfies the invariant. *)
Lemma reachable_invariant (env : gmap string jsstring) (s : App) :
  reachable env s -> page_invariant env s.
Proof.
  induction 1 as [a | s ev _ IH];
    [apply mount_invariant | by apply dispatch_invariant].
Qed.

(** Running events from a mounted page stays among the reachable states. *)
Lemma run_reachable (env : gmap string jsstring) (evs : list Event) (s : App) :
  reachable env s -> reachable env (run evs s).
Proof.
  revert s. induction evs as [|ev evs IH]; intros s Hs; [exact Hs|].
  apply IH. by constructor.
Qed.

Lemma variables_read_reads (vars : list string) :
  variables_read (map EnvRead vars) = vars.
Proof.
  induction vars as [|v vars IH]; [reflexivity|].
  change (v :: variables_read (map EnvRead vars) = v :: vars). by rewrite IH.
Qed.

Lemma variables_read_page (l : list Effect) :
  Forall page_effect l -> variables_read l = [].
Proof.
  induction 1 as [|e l He _ IH]; [reflexivity|].
  destruct e; try done; exact IH.
Qed.

Lemma page_effect_no_mail (l : list Effect) (a b : jsstring) :
  Forall page_effect l -> SendMail a b ∉ l.
Proof.
  intros Hall Hin. rewrite Forall_forall in Hall. exact (Hall _ Hin).
Qed.

Lemma reads_no_mail (vars : list string) (a b : jsstring) :
  SendMail a b ∉ map EnvRead vars.
Proof.
  intros Hin. apply list_elem_of_In, in_map_iff in Hin.
  destruct Hin as (v & Hv & _). discriminate.
Qed.

(** A state reached by typing a user name and a password and showing the
    password, in the default environment. *)
Lemma typed_reachable :
  reachable ∅
    (run [Change 0 (lit "bob"); Change 1 (lit "hunter2"); ClickShow]
         (mount ∅ anonymous)).
Proof. apply run_reachable. constructor. Qed.

(* ===================================================================== *)
(** ** The claims about the login page *)
(* ===================================================================== *)

(** C9. In every reachable state of the login page the form's [url] is
    the configured [ODOO_URL] and its [database] the configured [ODOO_DB]:
    the rendered inputs are named [username] and [password] only, and
    [handleChange] writes the field named by the input it was fired on and
    leaves every other field as it was. *)
Theorem form_target_fixed (env : gmap string jsstring) (s : App) :
  reachable env s ->
  form (page s) !! "url" = Some (ODOO_URL (cfg s))
  /\ form (page s) !! "database" = Some (ODOO_DB (cfg s))
  /\ (forall i el, render_inputs (page s) !! i = Some el ->
        name el = "username" \/ name el = "password")
  /\ (forall n v k, k <> n ->
        form (handleChange n v (page s)) !! k = form (page s) !! k).
Proof.
  intros Hs. destruct (reachable_invariant env s Hs) as [-> Hurl Hdb _ _ _].
  split_and!; [exact Hurl | exact Hdb | apply rendered_names |].
  intros n v k Hne. by apply handleChange_other.
Qed.

Lemma form_target_fixed_witness :
  let s := run [Change 0 (lit "bob"); Change 1 (lit "hunter2"); ClickShow]
               (mount ∅ anonymous) in
  form (page s) !! "url" = Some (lit "https://prezlab.odoo.com/")
  /\ form (page s) !! "database"
     = Some (lit "odoo-ps-psae-prezlab-main-10779811")
  /\ form (page s) !! "username" = Some (lit "bob").
Proof.
  intros s.
  destruct (form_target_fixed ∅ s typed_reachable) as (Hurl & Hdb & _).
  split_and!; [exact Hurl | exact Hdb | reflexivity].
Defined.

(** C7. Submitting the form calls [connectToOdoo] once, with the form
    state as its argument, and the form state has exactly the four fields
    [url], [database], [username] and [password]. *)
Theorem submit_passes_form (env : gmap string jsstring) (s : App) :
  reachable env s ->
  log (dispatch Submit s)
    = log s ++ [PreventDefault; ConnectToOdoo (form (page s))]
  /\ submitted (log (dispatch Submit s))
     = submitted (log s) ++ [form (page s)]
  /\ dom (form (page s))
     = ({[ "url"; "database"; "username"; "password" ]} : gset string).
Proof.
  intros Hs. destruct (reachable_invariant env s Hs) as [_ _ _ Hdom _ _].
  cbn [dispatch log]. rewrite submit_log, submitted_app.
  split_and!; [reflexivity | reflexivity | exact Hdom].
Qed.

Lemma submit_passes_form_witness :
  let s := run [Change 0 (lit "bob"); Change 1 (lit "hunter2"); ClickShow]
               (mount ∅ anonymous) in
  submitted (log (dispatch Submit s))
  = [ <["url" := lit "https://prezlab.odoo.com/"]>
      (<["database" := lit "odoo-ps-psae-prezlab-main-10779811"]>
      (<["username" := lit "bob"]>
      (<["password" := lit "hunter2"]> ∅))) ].
Proof.
  intros s.
  destruct (submit_passes_form ∅ s typed_reachable) as (_ & Hsub & _).
  rewrite Hsub. reflexivity.
Defined.

(** C2. The endpoint and the database travel with every login request:
    [handleSubmit] passes the form state as it is, [url] and [database]
    included, and neither it nor [handleChange] holds them to the
    configured values.  [ODOO_URL] and [ODOO_DB] are only what the form
    starts with: [handleChange] takes any field name, so a change named
    [url] or [database] replaces them with whatever the client gives, and
    the next submit sends the replacement. *)
Theorem target_supplied_per_request (c : Config) (p : PageState)
  (u d : jsstring) (l : list Effect) :
  submitted (snd (handleSubmit p l)) = submitted l ++ [form p]
  /\ initial_form c !! "url" = Some (ODOO_URL c)
  /\ initial_form c !! "database" = Some (ODOO_DB c)
  /\ submitted
       (snd (handleSubmit
               (handleChange "database" d (handleChange "url" u p)) l))
     = submitted l ++ [<["database" := d]> (<["url" := u]> (form p))]
  /\ <["database" := d]> (<["url" := u]> (form p)) !! "url" = Some u
  /\ <["database" := d]> (<["url" := u]> (form p)) !! "database" = Some d
  /\ (forall k, k <> "url" -> k <> "database" ->
        <["database" := d]> (<["url" := u]> (form p)) !! k = form p !! k).
Proof.
  split_and!.
  - by rewrite submit_log, submitted_app.
  - reflexivity.
  - reflexivity.
  - by rewrite submit_log, submitted_app.
  - by rewrite lookup_insert_ne, lookup_insert_eq.
  - by rewrite lookup_insert_eq.
  - intros k Hu Hd. by rewrite !lookup_insert_ne.
Qed.

Lemma target_supplied_per_request_witness :
  submitted
    (snd (handleSubmit
            (handleChange "database" (lit "other")
               (handleChange "url" (lit "https://elsewhere.example/")
                  {| form := initial_form (config ∅);
                     showPassword := false |})) []))
  = [ <["url" := lit "https://elsewhere.example/"]>
      (<["database" := lit "other"]>
      (<["username" := lit ""]>
      (<["password" := lit ""]> ∅))) ]
  /\ ODOO_URL (config ∅) <> lit "https://elsewhere.example/".
Proof.
  destruct (target_supplied_per_request (config ∅)
              {| form := initial_form (config ∅); showPassword := false |}
              (lit "https://elsewhere.example/") (lit "other") [])
    as (_ & _ & _ & H & _).
  split; [rewrite H; reflexivity | discriminate].
Defined.

(** C3. The allow-list is built once, when the configuration module is
    loaded, from [REACT_APP_ALLOWED_USER_EMAILS]: every reachable state
    holds the trimmed comma-separated pieces of that variable (the two
    built-in addresses when it is unset or empty); no event of the page
    changes it; and the environment is read by the module body only, the
    variable once to test it and once more to split it when it is set. *)
Theorem allow_list_loaded_once (env : gmap string jsstring) (s : App) :
  reachable env s ->
  ALLOWED_USER_EMAILS (cfg s)
  = match env !! "REACT_APP_ALLOWED_USER_EMAILS" with
    | Some (c :: r) => map trim (split COMMA (c :: r))
    | _ => [lit "omar.elhasan@prezlab.com"; lit "sanad.zaqtan@prezlab.com"]
    end
  /\ (forall ev,
        ALLOWED_USER_EMAILS (cfg (dispatch ev s))
        = ALLOWED_USER_EMAILS (cfg s))
  /\ variables_read (log s)
     = [ "REACT_APP_ODOO_URL"; "REACT_APP_ODOO_DB";
         "REACT_APP_DEFAULT_SENDER_EMAIL";
         "REACT_APP_DEFAULT_SENDER_PASSWORD";
         "REACT_APP_DEFAULT_SMTP_SERVER"; "REACT_APP_DEFAULT_SMTP_PORT";
         "REACT_APP_ALLOWED_USER_EMAILS" ]
       ++ (if truthy (env !! "REACT_APP_ALLOWED_USER_EMAILS")
           then ["REACT_APP_ALLOWED_USER_EMAILS"] else [])
  /\ exists rest, log s = snd (load env []) ++ rest
                  /\ variables_read rest = [].
Proof.
  intros Hs.
  destruct (reachable_invariant env s Hs) as [Hcfg _ _ _ _ (rest & Hl & Hr)].
  apply variables_read_page in Hr.
  split_and!.
  - rewrite Hcfg. apply config_allowed.
  - intros ev.
    destruct (reachable_invariant env _ (reach_step env s ev Hs))
      as [-> _ _ _ _ _].
    by rewrite Hcfg.
  - rewrite Hl, load_eq. cbn [snd app].
    unfold variables_read in *. rewrite omap_app, Hr, app_nil_r.
    apply variables_read_reads.
  - by exists rest.
Qed.

Lemma allow_list_loaded_once_witness :
  let s := run [Change 0 (lit "bob"); Change 1 (lit "hunter2"); Submit]
               (mount env_spaced anonymous) in
  ALLOWED_USER_EMAILS (cfg s) = [lit "a@b.com"; lit ""; lit "C@d.com"]
  /\ variables_read (log s)
     = [ "REACT_APP_ODOO_URL"; "REACT_APP_ODOO_DB";
         "REACT_APP_DEFAULT_SENDER_EMAIL";
         "REACT_APP_DEFAULT_SENDER_PASSWORD";
         "REACT_APP_DEFAULT_SMTP_SERVER"; "REACT_APP_DEFAULT_SMTP_PORT";
         "REACT_APP_ALLOWED_USER_EMAILS"; "REACT_APP_ALLOWED_USER_EMAILS" ].
Proof.
  intros s.
  destruct (allow_list_loaded_once env_spaced s) as (Hlist & _ & Hreads & _).
  - apply run_reachable. constructor.
  - split; [rewrite Hlist | rewrite Hreads]; reflexivity.
Defined.

(* ===================================================================== *)
(** ** The claims about the configuration module *)
(* ===================================================================== *)

(** C6, as stated, fails: the module defines seven names, which no naming
    of the five enumerated options covers. *)
Lemma config_is_not_the_five_options :
  ~ consists_exactly_of (dom (exports (config ∅))).
Proof.
  rewrite dom_exports. intros (f & Hf).
  set (Y := ({[f DefaultEndpoint]} ∪ ({[f DefaultDatabase]}
             ∪ ({[f AllowList]} ∪ ({[f IdleTimeout]}
             ∪ {[f CallTimeout]})))) : gset string).
  assert (Hsub : odoo_names ⊆ Y).
  { intros n Hn. apply Hf in Hn as (o & Ho & <-).
    unfold Y. rewrite !elem_of_union, !elem_of_singleton.
    destruct o; tauto. }
  apply subseteq_size in Hsub. rewrite size_odoo_names in Hsub.
  pose proof (size_five (f DefaultEndpoint) (f DefaultDatabase)
                (f AllowList) (f IdleTimeout) (f CallTimeout)) as Hfive.
  fold Y in Hfive. lia.
Qed.

(** C6 (amended). The configuration read when the module is loaded
    consists of exactly seven values: the default endpoint URL, the
    default database name, the sender address, the sender credential, the
    SMTP host, the SMTP port and the allow-list, each read from its own
    [REACT_APP_] environment variable (its default when the variable is
    unset or empty); there is no idle-timeout and no call-timeout option.
    The page treats them as read-only: every reachable state holds the
    configuration as loaded. *)
Theorem config_options (env : gmap string jsstring) :
  dom (exports (config env))
  = ({[ "ODOO_URL"; "ODOO_DB"; "DEFAULT_SENDER_EMAIL";
        "DEFAULT_SENDER_PASSWORD"; "DEFAULT_SMTP_SERVER";
        "DEFAULT_SMTP_PORT"; "ALLOWED_USER_EMAILS" ]} : gset string)
  /\ exports (config env) !! "ODOO_URL"
     = Some (VString (or_else (env !! "REACT_APP_ODOO_URL")
                        (lit "https://prezlab.odoo.com/")))
  /\ exports (config env) !! "ODOO_DB"
     = Some (VString (or_else (env !! "REACT_APP_ODOO_DB")
                        (lit "odoo-ps-psae-prezlab-main-10779811")))
  /\ exports (config env) !! "DEFAULT_SENDER_EMAIL"
     = Some (VString (or_else (env !! "REACT_APP_DEFAULT_SENDER_EMAIL")
                        (lit "")))
  /\ exports (config env) !! "DEFAULT_SENDER_PASSWORD"
     = Some (VString (or_else (env !! "REACT_APP_DEFAULT_SENDER_PASSWORD")
                        (lit "")))
  /\ exports (config env) !! "DEFAULT_SMTP_SERVER"
     = Some (VString (or_else (env !! "REACT_APP_DEFAULT_SMTP_SERVER")
                        (lit "smtp.gmail.com")))
  /\ exports (config env) !! "DEFAULT_SMTP_PORT"
     = Some (VString (or_else (env !! "REACT_APP_DEFAULT_SMTP_PORT")
                        (lit "587")))
  /\ exports (config env) !! "ALLOWED_USER_EMAILS"
     = Some (VArray
               match env !! "REACT_APP_ALLOWED_USER_EMAILS" with
               | Some (c :: r) => map trim (split COMMA (c :: r))
               | _ => [lit "omar.elhasan@prezlab.com";
                       lit "sanad.zaqtan@prezlab.com"]
               end)
  /\ variables_read (snd (load env []))
     = [ "REACT_APP_ODOO_URL"; "REACT_APP_ODOO_DB";
         "REACT_APP_DEFAULT_SENDER_EMAIL";
         "REACT_APP_DEFAULT_SENDER_PASSWORD";
         "REACT_APP_DEFAULT_SMTP_SERVER"; "REACT_APP_DEFAULT_SMTP_PORT";
         "REACT_APP_ALLOWED_USER_EMAILS" ]
       ++ (if truthy (env !! "REACT_APP_ALLOWED_USER_EMAILS")
           then ["REACT_APP_ALLOWED_USER_EMAILS"] else [])
  /\ (forall s, reachable env s ->
        cfg s = config env /\ forall ev, cfg (dispatch ev s) = cfg s).
Proof.
  destruct (config_strings env) as (Hurl & Hdb & Hmail & Hpass & Hsrv & Hport).
  pose proof (config_allowed env) as Hallowed.
  split_and!.
  - apply dom_exports.
  - by rewrite <- Hurl.
  - by rewrite <- Hdb.
  - by rewrite <- Hmail.
  - by rewrite <- Hpass.
  - by rewrite <- Hsrv.
  - by rewrite <- Hport.
  - unfold default_allowed in Hallowed. by rewrite <- Hallowed.
  - rewrite load_eq. cbn [snd app]. apply variables_read_reads.
  - intros s Hs. split.
    + by destruct (reachable_invariant env s Hs) as [-> _ _ _ _ _].
    + intros ev. by destruct ev; cbn [dispatch];
        [destruct (render_inputs (page s) !! i)| | |].
Qed.

Lemma config_options_witness :
  exports (config env_spaced) !! "ALLOWED_USER_EMAILS"
  = Some (VArray [lit "a@b.com"; lit ""; lit "C@d.com"])
  /\ exports (config env_spaced) !! "DEFAULT_SMTP_PORT"
     = Some (VString (lit "587"))
  /\ exports (config env_spaced) !! "SESSION_IDLE_TIMEOUT" = None.
Proof.
  destruct (config_options env_spaced)
    as (_ & _ & _ & _ & _ & _ & Hport & Hallowed & _).
  split_and!; [by rewrite Hallowed | by rewrite Hport | reflexivity].
Defined.

(** C8. Loading the configuration module only reads the environment and
    defines its values, among them the four the e-mail collaborator
    consumes (sender address, sender credential, SMTP host, SMTP port);
    neither the module body nor any event of the page sends mail; the
    SMTP host is ['smtp.gmail.com'] and the port ['587'] when their
    variables are unset. *)
Theorem email_values_only_supplied (env : gmap string jsstring) :
  (forall l0, snd (load env l0) = l0 ++ map EnvRead (load_reads env))
  /\ (forall a b, SendMail a b ∉ snd (load env []))
  /\ (forall s a b, reachable env s -> SendMail a b ∉ log s)
  /\ exports (config env) !! "DEFAULT_SENDER_EMAIL"
     = Some (VString (DEFAULT_SENDER_EMAIL (config env)))
  /\ exports (config env) !! "DEFAULT_SENDER_PASSWORD"
     = Some (VString (DEFAULT_SENDER_PASSWORD (config env)))
  /\ exports (config env) !! "DEFAULT_SMTP_SERVER"
     = Some (VString (DEFAULT_SMTP_SERVER (config env)))
  /\ exports (config env) !! "DEFAULT_SMTP_PORT"
     = Some (VString (DEFAULT_SMTP_PORT (config env)))
  /\ (env !! "REACT_APP_DEFAULT_SMTP_SERVER" = None ->
      DEFAULT_SMTP_SERVER (config env) = lit "smtp.gmail.com")
  /\ (env !! "REACT_APP_DEFAULT_SMTP_PORT" = None ->
      DEFAULT_SMTP_PORT (config env) = lit "587").
Proof.
  destruct (config_strings env) as (_ & _ & _ & _ & Hserver & Hport).
  split_and!; try reflexivity.
  - intros l0. by rewrite load_eq.
  - intros a b. rewrite load_eq. apply reads_no_mail.
  - intros s a b Hs.
    destruct (reachable_invariant env s Hs) as [_ _ _ _ _ (rest & -> & Hr)].
    rewrite load_eq, not_elem_of_app.
    split; [apply reads_no_mail | by apply page_effect_no_mail].
  - intros Hunset. by rewrite Hserver, Hunset.
  - intros Hunset. by rewrite Hport, Hunset.
Qed.

Lemma email_values_only_supplied_witness :
  DEFAULT_SMTP_SERVER (config ∅) = lit "smtp.gmail.com"
  /\ DEFAULT_SMTP_PORT (config ∅) = lit "587"
  /\ snd (load ∅ [SendMail (lit "a") (lit "b")])
     = SendMail (lit "a") (lit "b") :: map EnvRead (load_reads ∅).
Proof.
  destruct (email_values_only_supplied ∅)
    as (Hlog & _ & _ & _ & _ & _ & _ & Hserver & Hport).
  split_and!; [by apply Hserver | by apply Hport | by rewrite Hlog].
Defined.

(** C10. When [REACT_APP_ALLOWED_USER_EMAILS] is set and not empty, the
    allow-list is its comma-separated pieces, each with the white space
    around it removed and none dropped, so an empty piece stays as an
    empty entry; when the variable is unset the allow-list is the two
    built-in addresses. *)
Theorem allowed_user_emails_from_env (env : gmap string jsstring) :
  (forall v, env !! "REACT_APP_ALLOWED_USER_EMAILS" = Some v -> v <> [] ->
     ALLOWED_USER_EMAILS (config env) = map trim (split COMMA v)
     /\ length (ALLOWED_USER_EMAILS (config env)) = S (occurrences COMMA v)
     /\ exists pieces,
          join COMMA pieces = v
          /\ Forall (fun p => COMMA ∉ p) pieces
          /\ Forall2 trimmed_of pieces (ALLOWED_USER_EMAILS (config env)))
  /\ (env !! "REACT_APP_ALLOWED_USER_EMAILS" = None ->
      ALLOWED_USER_EMAILS (config env)
      = [lit "omar.elhasan@prezlab.com"; lit "sanad.zaqtan@prezlab.com"]).
Proof.
  rewrite config_allowed. split.
  - intros v -> Hv. destruct v as [|c r]; [done|].
    split_and!; [reflexivity | by rewrite length_map, split_length |].
    exists (split COMMA (c :: r)).
    split_and!; [apply join_split | apply split_pieces_free |].
    apply Forall2_fmap_r, Forall_Forall2_diag, Forall_forall.
    intros p _. apply trim_spec.
  - by intros ->.
Qed.

Lemma allowed_user_emails_from_env_witness :
  ALLOWED_USER_EMAILS (config env_spaced)
  = [lit "a@b.com"; lit ""; lit "C@d.com"]
  /\ ALLOWED_USER_EMAILS (config env_trailing_comma)
     = [lit "alice@example.com"; lit ""]
  /\ ALLOWED_USER_EMAILS (config ∅)
     = [lit "omar.elhasan@prezlab.com"; lit "sanad.zaqtan@prezlab.com"].
Proof.
  destruct (allowed_user_emails_from_env env_spaced) as (Hset & _).
  destruct (Hset (lit " a@b.com ,, C@d.com")) as (Hs & _); [done | done |].
  destruct (allowed_user_emails_from_env env_trailing_comma) as (Hset' & _).
  destruct (Hset' (lit "alice@example.com,")) as (Ht & _); [done | done |].
  destruct (allowed_user_emails_from_env ∅) as (_ & Hunset).
  split_and!; [by rewrite Hs | by rewrite Ht | by apply Hunset].
Defined.

(* ===================================================================== *)
(** ** The claims about the validator and the login operation *)
(* ===================================================================== *)

Section GatewayProperties.

Variable lowercase : jsstring -> jsstring.
Variable malformed : jsstring -> bool.
Variable remote : Credential -> AuthError + jsstring.

Lemma existsb_up_to_case (allow : list jsstring) (u : jsstring) :
  existsb (fun e => bool_decide (lowercase u = lowercase e)) allow = true
  <-> exists e, e ∈ allow /\ lowercase u = lowercase e.
Proof.
  rewrite existsb_exists. split; intros (e & He & Heq); exists e.
  - apply list_elem_of_In in He. apply bool_decide_eq_true in Heq. done.
  - apply list_elem_of_In in He. split; [exact He|].
    by apply bool_decide_eq_true.
Qed.

Lemma validate_true (allow : list jsstring) (u : jsstring) :
  validate lowercase malformed allow u = true
  <-> malformed u = false
      /\ exists e, e ∈ allow /\ lowercase u = lowercase e.
Proof.
  unfold validate.
  rewrite andb_true_iff, negb_true_iff, existsb_up_to_case. tauto.
Qed.

(** An accepted login does reach the ERP endpoint: the validator is the
    only thing between a request and the remote call. *)
Lemma login_allowed_calls_remote (allow : list jsstring) (sid now : N)
  (c : Credential) (g : State) :
  validate lowercase malformed allow (username c) = true ->
  effects (snd (login lowercase malformed allow remote sid now c g))
  = effects g ++ [RemoteCall (endpoint c) (database c) (username c)].
Proof.
  intros Hv. unfold login, authenticate, bind, emit, ret. rewrite Hv.
  by destruct (remote c).
Qed.

(** C1. A login for a username that matches no entry of the allow-list
    (the comparison being the validator's, up to letter case) returns
    [Forbidden] and leaves the gateway as it was: no remote call is
    issued and no session is created. *)
Theorem login_forbidden (allow : list jsstring) (sid now : N)
  (c : Credential) (g : State) :
  ~ (exists e, e ∈ allow /\ lowercase (username c) = lowercase e) ->
  login lowercase malformed allow remote sid now c g = (Forbidden, g)
  /\ remote_calls
       (effects (snd (login lowercase malformed allow remote sid now c g)))
     = remote_calls (effects g)
  /\ sessions (snd (login lowercase malformed allow remote sid now c g))
     = sessions g.
Proof.
  intros Hnot.
  assert (validate lowercase malformed allow (username c) = false) as Hv.
  { apply not_true_is_false. rewrite validate_true. tauto. }
  unfold login. by rewrite Hv.
Qed.

End GatewayProperties.

(** Matching against the entries alone would accept the empty username
    under such a configuration: the rejection of empty input is what makes
    the validator refuse it. *)
Example matching_alone_accepts_empty :
  existsb (fun e => bool_decide (to_lower_ascii [] = to_lower_ascii e))
    (ALLOWED_USER_EMAILS (config env_trailing_comma)) = true.
Proof. reflexivity. Qed.

Lemma login_forbidden_witness :
  login to_lower_ascii is_empty_input (ALLOWED_USER_EMAILS (config ∅))
    accept_all 1%N 0%N mallory no_sessions
  = (Forbidden, no_sessions).
Proof.
  refine (proj1 (login_forbidden to_lower_ascii is_empty_input accept_all
                   (ALLOWED_USER_EMAILS (config ∅)) 1%N 0%N mallory
                   no_sessions _)).
  intros (e & He & Heq).
  change (ALLOWED_USER_EMAILS (config ∅)) with default_allowed in He.
  apply list_elem_of_In in He.
  destruct He as [<- | [<- | []]]; vm_compute in Heq; discriminate.
Defined.

Lemma validate_username_true (malformed : jsstring -> bool)
  (allow : list jsstring) (u : jsstring) :
  validate_username malformed allow u = true
  <-> u <> [] /\ malformed u = false
      /\ exists e, e ∈ allow /\ to_lower_ascii u = to_lower_ascii e.
Proof.
  unfold validate_username, rejected_input.
  rewrite validate_true, orb_false_iff.
  destruct u; simpl; intuition congruence.
Qed.

Lemma validate_username_empty (malformed : jsstring -> bool)
  (allow : list jsstring) :
  validate_username malformed allow [] = false.
Proof. reflexivity. Qed.

Lemma same_letter_lower (a b : N) :
  same_letter a b -> to_lower_ascii [a] = to_lower_ascii [b].
Proof.
  unfold to_lower_ascii. simpl.
  intros [-> | [(Ha & ->) | (Hb & ->)]]; [done | |]; f_equal.
  - destruct (N.leb_spec 65 a), (N.leb_spec a 90),
      (N.leb_spec 65 (a + 32)), (N.leb_spec (a + 32) 90); simpl; lia.
  - destruct (N.leb_spec 65 b), (N.leb_spec b 90),
      (N.leb_spec 65 (b + 32)), (N.leb_spec (b + 32) 90); simpl; lia.
Qed.

(** Strings that differ in case only fold to the same string. *)
Lemma case_only_same_lower (u e : jsstring) :
  differs_in_case_only u e -> to_lower_ascii u = to_lower_ascii e.
Proof.
  induction 1 as [|a b u e Hab _ IH]; [done|].
  apply same_letter_lower in Hab. injection Hab as Hab.
  change (to_lower_ascii (?x :: ?l))
    with (hd 0%N (to_lower_ascii [x]) :: to_lower_ascii l).
  unfold to_lower_ascii at 1 3. simpl hd. by rewrite Hab, IH.
Qed.

(** And only such strings do. *)
Lemma same_lower_case_only (u e : jsstring) :
  to_lower_ascii u = to_lower_ascii e -> differs_in_case_only u e.
Proof.
  revert e. induction u as [|a u IH]; intros [|b e]; try done.
  - constructor.
  - unfold to_lower_ascii. simpl. intros [= Hab Hrest].
    constructor; [|by apply IH]. unfold same_letter.
    destruct (N.leb_spec 65 a), (N.leb_spec a 90),
      (N.leb_spec 65 b), (N.leb_spec b 90); simpl in Hab; lia.
Qed.

Lemma trailing_comma_has_empty_entry :
  [] ∈ ALLOWED_USER_EMAILS (config env_trailing_comma).
Proof. apply list_elem_of_In. right. by left. Qed.

(** C4, as stated, fails: the allow-list the module builds from
    ["alice@example.com,"] holds an empty entry, which the empty username
    equals up to case, and the validator returns [false] for the empty
    username, whatever else it takes for malformed (here: nothing). *)
Lemma validate_not_exactly_up_to_case :
  ~ accepts_exactly_up_to_case to_lower_ascii
      (ALLOWED_USER_EMAILS (config env_trailing_comma))
      (validate_username (fun _ => false)
         (ALLOWED_USER_EMAILS (config env_trailing_comma))).
Proof.
  intros Hiff.
  assert (validate_username (fun _ => false)
            (ALLOWED_USER_EMAILS (config env_trailing_comma)) [] = true)
    as Hv.
  { apply Hiff. exists []. split; [|done].
    apply trailing_comma_has_empty_entry. }
  by rewrite validate_username_empty in Hv.
Qed.

(** C4 (amended). For every candidate username that is not empty or
    malformed, the validator accepts it exactly when some entry of the
    allow-list equals it up to letter case; in particular such a username
    that differs from an allowed entry only in the case of its letters is
    accepted.  The empty username is rejected even when the allow-list
    holds an empty entry. *)
Theorem validate_up_to_case (malformed : jsstring -> bool)
  (allow : list jsstring) (u : jsstring) :
  u <> [] -> malformed u = false ->
  (validate_username malformed allow u = true
   <-> exists e, e ∈ allow /\ to_lower_ascii u = to_lower_ascii e)
  /\ (forall e, e ∈ allow -> differs_in_case_only u e ->
        validate_username malformed allow u = true)
  /\ (forall allow' : list jsstring, [] ∈ allow' ->
        validate_username malformed allow' [] = false).
Proof.
  intros Hne Hu. split_and!.
  - rewrite validate_username_true. tauto.
  - intros e He Hcase. apply validate_username_true.
    split_and!; [done | done |]. exists e. split; [done|].
    by apply case_only_same_lower.
  - intros allow' _. apply validate_username_empty.
Qed.

Lemma validate_up_to_case_witness :
  differs_in_case_only (lit "Omar.ElHasan@PrezLab.com")
    (lit "omar.elhasan@prezlab.com")
  /\ validate_username (fun _ => false) (ALLOWED_USER_EMAILS (config ∅))
       (lit "Omar.ElHasan@PrezLab.com") = true.
Proof.
  assert (differs_in_case_only (lit "Omar.ElHasan@PrezLab.com")
            (lit "omar.elhasan@prezlab.com")) as Hcase.
  { by apply same_lower_case_only. }
  split; [exact Hcase|].
  refine (proj1 (proj2 (validate_up_to_case (fun _ => false)
                          (ALLOWED_USER_EMAILS (config ∅))
                          (lit "Omar.ElHasan@PrezLab.com") _ _))
            (lit "omar.elhasan@prezlab.com") _ Hcase).
  - discriminate.
  - reflexivity.
  - apply list_elem_of_In. by left.
Defined.

(** C5. The validator returns [false] for the empty username whatever the
    allow-list holds, also for the lists the configuration module builds
    from a variable with a trailing or doubled comma, which do hold an
    empty entry.  On such a list it is the rejection of empty input alone
    that refuses it: a validator that only compares would accept it. *)
Theorem validate_empty (malformed : jsstring -> bool)
  (allow : list jsstring) :
  validate_username malformed allow [] = false
  /\ (forall env,
        validate_username malformed (ALLOWED_USER_EMAILS (config env)) []
        = false)
  /\ [] ∈ ALLOWED_USER_EMAILS (config env_trailing_comma)
  /\ (forall lowercase m env,
        [] ∈ ALLOWED_USER_EMAILS (config env) ->
        validate lowercase m (ALLOWED_USER_EMAILS (config env)) [] = false ->
        m [] = true).
Proof.
  split_and!.
  - apply validate_username_empty.
  - intros env. apply validate_username_empty.
  - apply trailing_comma_has_empty_entry.
  - intros lowercase m env Hin Hv.
    destruct (m []) eqn:Hm; [done|].
    assert (validate lowercase m (ALLOWED_USER_EMAILS (config env)) []
            = true) as Hacc
      by (apply validate_true; split; [done | by exists []]).
    congruence.
Qed.

(* ===================================================================== *)
(** ** More about [split], [join] and [trim] *)
(* ===================================================================== *)

Section MoreSplitFacts.
Variable sep : N.

(** A string without the separator is its own single piece. *)
Lemma split_free (s : jsstring) : sep ∉ s -> split sep s = [s].
Proof.
  induction s as [|c r IH]; [reflexivity|].
  rewrite not_elem_of_cons. intros (Hne & Hr). simpl.
  destruct (N.eqb_spec c sep) as [->|_]; [congruence|]. by rewrite IH.
Qed.

(** Splitting distributes over gluing with the separator. *)
Lemma split_app (a b : jsstring) :
  split sep (a ++ sep :: b) = split sep a ++ split sep b.
Proof.
  induction a as [|c a IH]; simpl.
  - by rewrite N.eqb_refl.
  - destruct (c =? sep)%N; [by rewrite IH|].
    rewrite IH. pose proof (split_not_nil sep a) as Hnil.
    by destruct (split sep a).
Qed.

(** Splitting undoes joining, for pieces that are free of the separator. *)
Lemma split_join (pieces : list jsstring) :
  pieces <> [] -> Forall (fun p => sep ∉ p) pieces ->
  split sep (join sep pieces) = pieces.
Proof.
  induction pieces as [|p ps IH]; [done|]. intros _ Hfree.
  inversion Hfree as [|? ? Hp Hps]; subst.
  destruct ps as [|q qs]; [by apply split_free|].
  rewrite join_cons by done. rewrite split_app, split_free by done.
  by rewrite IH.
Qed.

(** The first piece starts the string. *)
Lemma split_head_prefix (s p : jsstring) (ps : list jsstring) :
  split sep s = p :: ps -> exists r, s = p ++ r.
Proof.
  revert p ps. induction s as [|c s IH]; simpl; intros p ps.
  - intros [= <- <-]. by exists [].
  - destruct (c =? sep)%N; [intros [= <- _]; by eexists|].
    pose proof (split_not_nil sep s) as Hnil.
    destruct (split sep s) as [|q qs]; [done|]. intros [= <- _].
    destruct (IH q qs eq_refl) as (r & ->). by exists r.
Qed.

(** Every piece is a run of consecutive code units of the string. *)
Lemma split_pieces_infix (s p : jsstring) :
  p ∈ split sep s -> infix_of p s.
Proof.
  revert p. induction s as [|c s IH]; simpl; intros p.
  - rewrite list_elem_of_singleton. intros ->. by exists [], [].
  - destruct (c =? sep)%N.
    + rewrite elem_of_cons. intros [-> | Hp]; [by exists [], (c :: s)|].
      destruct (IH p Hp) as (l & r & ->). by exists (c :: l), r.
    + destruct (split sep s) as [|q qs] eqn:Hs.
      * rewrite list_elem_of_singleton. intros ->. by exists [], s.
      * rewrite elem_of_cons. intros [-> | Hp].
        -- destruct (split_head_prefix s q qs Hs) as (r & ->).
           by exists [], r.
        -- destruct (IH p) as (l & r & ->); [by right|].
           by exists (c :: l), r.
Qed.

End MoreSplitFacts.

Lemma trim_start_id (s : jsstring) :
  (forall c, head s = Some c -> is_white_space c = false) ->
  trim_start s = s.
Proof.
  destruct s as [|c r]; [done|]. intros H. simpl. by rewrite (H c).
Qed.

Lemma trim_end_id (s : jsstring) :
  (forall c, last s = Some c -> is_white_space c = false) ->
  trim_end s = s.
Proof.
  induction s as [|c r IH]; [done|]. intros H. simpl.
  destruct r as [|d r].
  - simpl. by rewrite (H c).
  - rewrite IH; [done|]. intros x Hx. apply H. by rewrite last_cons_cons.
Qed.

(** Trimming twice is trimming once. *)
Lemma trim_idem (s : jsstring) : trim (trim s) = trim s.
Proof.
  destruct (trim_spec s) as (_ & _ & _ & _ & _ & Hhead & Hlast).
  unfold trim at 1. by rewrite trim_start_id, trim_end_id.
Qed.

(** A string of white space only trims to the empty string. *)
Lemma trim_blank (s : jsstring) :
  Forall (fun c => is_white_space c = true) s -> trim s = [].
Proof.
  intros H. unfold trim.
  assert (trim_start s = []) as ->; [|done].
  induction H as [|c r Hc _ IH]; [done|]. simpl. by rewrite Hc.
Qed.

Lemma trim_infix (s : jsstring) : infix_of (trim s) s.
Proof. destruct (trim_spec s) as (l & r & Hs & _). by exists l, r. Qed.

Lemma infix_free (e v : jsstring) (c : N) : infix_of e v -> c ∉ v -> c ∉ e.
Proof.
  intros (l & r & ->). rewrite !not_elem_of_app. tauto.
Qed.

Lemma infix_trans (a b c : jsstring) :
  infix_of a b -> infix_of b c -> infix_of a c.
Proof.
  intros (l & r & ->) (l' & r' & ->). exists (l' ++ l), (r ++ r').
  by rewrite <- !app_assoc.
Qed.

(** What [split] then [trim] leave is clean. *)
Lemma trim_piece_clean (p : jsstring) : COMMA ∉ p -> clean_entry (trim p).
Proof.
  intros Hp. destruct (trim_spec p) as (_ & _ & _ & _ & _ & Hhead & Hlast).
  split_and!; [|exact Hhead | exact Hlast].
  exact (infix_free _ p COMMA (trim_infix p) Hp).
Qed.

(* ===================================================================== *)
(** ** More about the configuration module *)
(* ===================================================================== *)

Lemma or_else_effective (v : option jsstring) (d : jsstring) :
  or_else v d = or_else (effective v) d.
Proof. by destruct v as [[|c r]|]. Qed.

Lemma or_else_nonempty (v : option jsstring) (d : jsstring) :
  d <> [] -> or_else v d <> [].
Proof. by destruct v as [[|c r]|]. Qed.

Lemma config_allowed_effective (env : gmap string jsstring) :
  ALLOWED_USER_EMAILS (config env) =
    match effective (env !! "REACT_APP_ALLOWED_USER_EMAILS") with
    | Some v => map trim (split COMMA v)
    | None => default_allowed
    end.
Proof.
  rewrite config_allowed.
  by destruct (env !! "REACT_APP_ALLOWED_USER_EMAILS") as [[|c r]|].
Qed.

Lemma truthy_effective (v : option jsstring) :
  truthy v = truthy (effective v).
Proof. by destruct v as [[|c r]|]. Qed.

Lemma config_eta (c c' : Config) :
  ODOO_URL c = ODOO_URL c' -> ODOO_DB c = ODOO_DB c' ->
  DEFAULT_SENDER_EMAIL c = DEFAULT_SENDER_EMAIL c' ->
  DEFAULT_SENDER_PASSWORD c = DEFAULT_SENDER_PASSWORD c' ->
  DEFAULT_SMTP_SERVER c = DEFAULT_SMTP_SERVER c' ->
  DEFAULT_SMTP_PORT c = DEFAULT_SMTP_PORT c' ->
  ALLOWED_USER_EMAILS c = ALLOWED_USER_EMAILS c' ->
  c = c'.
Proof. destruct c, c'; simpl; congruence. Qed.

Lemma odoo_variables_elem (v : string) :
  v ∈ odoo_variables <->
  v = "REACT_APP_ODOO_URL" \/ v = "REACT_APP_ODOO_DB"
  \/ v = "REACT_APP_DEFAULT_SENDER_EMAIL"
  \/ v = "REACT_APP_DEFAULT_SENDER_PASSWORD"
  \/ v = "REACT_APP_DEFAULT_SMTP_SERVER"
  \/ v = "REACT_APP_DEFAULT_SMTP_PORT"
  \/ v = "REACT_APP_ALLOWED_USER_EMAILS".
Proof.
  unfold odoo_variables. rewrite !elem_of_union, !elem_of_singleton. tauto.
Qed.

(** Two environments that look the same to the module give the same
    configuration and the same reads. *)
Lemma load_ext (env env' : gmap string jsstring) :
  (forall v, v ∈ odoo_variables ->
     effective (env !! v) = effective (env' !! v)) ->
  forall l, load env l = load env' l.
Proof.
  intros H l. rewrite !load_eq.
  assert (forall v, v ∈ odoo_variables ->
            forall d, or_else (env !! v) d = or_else (env' !! v) d) as Hor.
  { intros v Hv d. by rewrite or_else_effective, H, <- or_else_effective. }
  destruct (config_strings env) as (H1 & H2 & H3 & H4 & H5 & H6).
  destruct (config_strings env') as (H1' & H2' & H3' & H4' & H5' & H6').
  f_equal.
  - apply config_eta;
      [rewrite H1, H1' | rewrite H2, H2' | rewrite H3, H3' | rewrite H4, H4'
       | rewrite H5, H5' | rewrite H6, H6' |];
      try (apply Hor, odoo_variables_elem; tauto).
    rewrite !config_allowed_effective, H; [done|].
    apply odoo_variables_elem; tauto.
  - unfold load_reads. rewrite truthy_effective, H, <- truthy_effective;
      [done|]. apply odoo_variables_elem; tauto.
Qed.

(** X1. The configuration and the reads of the module body depend on the
    seven [REACT_APP_] variables only: two environments that agree on them
    load alike, whatever else they hold. *)
Theorem load_frame (env env' : gmap string jsstring) :
  (forall v, v ∈ odoo_variables -> env !! v = env' !! v) ->
  forall l, load env l = load env' l.
Proof.
  intros H. apply load_ext. intros v Hv. by rewrite H.
Qed.

Lemma load_frame_witness :
  load (<["PATH" := lit "/usr/bin"]> env_spaced) [] = load env_spaced [].
Proof.
  apply load_frame. intros v Hv. apply lookup_insert_ne.
  apply odoo_variables_elem in Hv.
  destruct Hv as [-> | [-> | [-> | [-> | [-> | [-> | ->]]]]]]; discriminate.
Defined.

(** X2. A variable set to the empty string is as good as unset: removing
    it changes neither the configuration nor the reads. *)
Theorem empty_variable_is_unset (env : gmap string jsstring) (var : string) :
  env !! var = Some [] ->
  forall l, load env l = load (delete var env) l.
Proof.
  intros H. apply load_ext. intros v _.
  destruct (decide (v = var)) as [-> | Hne].
  - by rewrite H, lookup_delete_eq.
  - by rewrite lookup_delete_ne.
Qed.

Lemma empty_variable_is_unset_witness :
  ODOO_URL (config env_blank_url) = lit "https://prezlab.odoo.com/"
  /\ load env_blank_url [] = load env_spaced [].
Proof.
  assert (load env_blank_url [] = load env_spaced []) as H
    by exact (empty_variable_is_unset env_blank_url "REACT_APP_ODOO_URL"
                eq_refl []).
  split; [|exact H]. unfold config. by rewrite H.
Defined.

Lemma allowed_not_nil (env : gmap string jsstring) :
  ALLOWED_USER_EMAILS (config env) <> [].
Proof.
  rewrite config_allowed_effective.
  destruct (effective (env !! "REACT_APP_ALLOWED_USER_EMAILS")) as [v|];
    [|done].
  pose proof (split_not_nil COMMA v). by destruct (split COMMA v).
Qed.

(** X3. The allow-list is never empty: a set variable gives at least one
    entry (possibly the empty string), an unset or empty one the two
    built-in addresses. *)
Theorem allow_list_never_empty (env : gmap string jsstring) :
  ALLOWED_USER_EMAILS (config env) <> []
  /\ 1 <= length (ALLOWED_USER_EMAILS (config env)).
Proof.
  pose proof (allowed_not_nil env) as H. split; [exact H|].
  destruct (ALLOWED_USER_EMAILS (config env)); [done | simpl; lia].
Qed.

Lemma default_allowed_clean : Forall clean_entry default_allowed.
Proof.
  repeat constructor;
    try (intros c [= <-]; reflexivity);
    intros H; apply list_elem_of_In in H; vm_compute in H;
    repeat (destruct H as [H | H]; [discriminate|]); exact H.
Qed.

Lemma allowed_clean (env : gmap string jsstring) :
  Forall clean_entry (ALLOWED_USER_EMAILS (config env)).
Proof.
  rewrite config_allowed_effective.
  destruct (effective (env !! "REACT_APP_ALLOWED_USER_EMAILS")) as [v|];
    [|apply default_allowed_clean].
  apply Forall_fmap. eapply Forall_impl; [apply split_pieces_free|].
  intros p Hp. by apply trim_piece_clean.
Qed.

Lemma map_trim_clean (l : list jsstring) :
  Forall clean_entry l -> map trim l = l.
Proof.
  induction 1 as [|e l (_ & Hhead & Hlast) _ IH]; [done|].
  simpl. rewrite IH. unfold trim. by rewrite trim_start_id, trim_end_id.
Qed.

(** X4. Whatever the environment, the entries of the allow-list hold no
    comma and neither start nor end with white space, so that trimming
    the list again changes nothing. *)
Theorem allow_list_entries_clean (env : gmap string jsstring) :
  Forall clean_entry (ALLOWED_USER_EMAILS (config env))
  /\ map trim (ALLOWED_USER_EMAILS (config env))
     = ALLOWED_USER_EMAILS (config env).
Proof.
  split; [apply allowed_clean | apply map_trim_clean, allowed_clean].
Qed.

(** X5. Every entry of an allow-list read from the environment is a run
    of consecutive characters of the variable's value: loading neither
    changes the case of an address nor rewrites it in any other way. *)
Theorem allow_list_entries_verbatim (env : gmap string jsstring)
  (v e : jsstring) :
  env !! "REACT_APP_ALLOWED_USER_EMAILS" = Some v -> v <> [] ->
  e ∈ ALLOWED_USER_EMAILS (config env) ->
  infix_of e v.
Proof.
  intros Hv Hne. rewrite config_allowed, Hv.
  destruct v as [|c r]; [done|].
  intros (p & -> & Hp)%list_elem_of_fmap.
  eapply infix_trans; [apply trim_infix | by apply (split_pieces_infix COMMA)].
Qed.

Lemma allow_list_entries_verbatim_witness :
  infix_of (lit "C@d.com") (lit " a@b.com ,, C@d.com").
Proof.
  apply (allow_list_entries_verbatim env_spaced); [done | done |].
  apply list_elem_of_In. vm_compute. tauto.
Defined.

Lemma allowed_of_set (env : gmap string jsstring) (v : jsstring) :
  v <> [] ->
  ALLOWED_USER_EMAILS
    (config (<["REACT_APP_ALLOWED_USER_EMAILS" := v]> env))
  = map trim (split COMMA v).
Proof.
  intros Hv. rewrite config_allowed, lookup_insert_eq. by destruct v.
Qed.

(** X6. Lists compose: the allow-list read from two non-empty values
    glued with a comma is the allow-list of the first followed by the
    allow-list of the second, in that order and with repetitions kept. *)
Theorem allow_list_of_concatenation (env : gmap string jsstring)
  (v1 v2 : jsstring) :
  v1 <> [] -> v2 <> [] ->
  ALLOWED_USER_EMAILS
    (config (<["REACT_APP_ALLOWED_USER_EMAILS" := v1 ++ COMMA :: v2]> env))
  = ALLOWED_USER_EMAILS
      (config (<["REACT_APP_ALLOWED_USER_EMAILS" := v1]> env))
    ++ ALLOWED_USER_EMAILS
         (config (<["REACT_APP_ALLOWED_USER_EMAILS" := v2]> env)).
Proof.
  intros H1 H2. rewrite !allowed_of_set; [|done..|by destruct v1].
  by rewrite split_app, map_app.
Qed.

Lemma allow_list_of_concatenation_witness :
  ALLOWED_USER_EMAILS
    (config
       (<["REACT_APP_ALLOWED_USER_EMAILS" := lit "a@b.com , a@b.com"]> ∅))
  = [lit "a@b.com"; lit "a@b.com"].
Proof.
  rewrite (allow_list_of_concatenation ∅ (lit "a@b.com ") (lit " a@b.com"));
    [reflexivity | done | done].
Defined.

(** X7. Writing the allow-list back with commas into the variable and
    loading again gives the same list, provided the text written is not
    empty (the one-entry list of the empty string writes as the empty
    text, which loads as the built-in default). *)
Theorem allow_list_round_trip (env : gmap string jsstring) :
  join COMMA (ALLOWED_USER_EMAILS (config env)) <> [] ->
  ALLOWED_USER_EMAILS
    (config (<["REACT_APP_ALLOWED_USER_EMAILS" :=
                 join COMMA (ALLOWED_USER_EMAILS (config env))]> env))
  = ALLOWED_USER_EMAILS (config env).
Proof.
  intros Hjoin. rewrite allowed_of_set by done.
  pose proof (allowed_clean env) as Hclean.
  rewrite split_join; [by apply map_trim_clean | apply allowed_not_nil |].
  eapply Forall_impl; [exact Hclean|]. by intros p (Hp & _).
Qed.

Lemma allow_list_round_trip_witness :
  join COMMA (ALLOWED_USER_EMAILS (config env_spaced)) = lit "a@b.com,,C@d.com"
  /\ ALLOWED_USER_EMAILS
       (config (<["REACT_APP_ALLOWED_USER_EMAILS" := lit "a@b.com,,C@d.com"]>
                  env_spaced))
     = ALLOWED_USER_EMAILS (config env_spaced).
Proof.
  split; [reflexivity|].
  exact (allow_list_round_trip env_spaced ltac:(done)).
Defined.

Lemma white_space_no_comma (v : jsstring) :
  Forall (fun c => is_white_space c = true) v -> COMMA ∉ v.
Proof.
  rewrite Forall_forall. intros H Hin. by specialize (H _ Hin).
Qed.

(** X8. A variable set to white space only does not count as unset: the
    allow-list is then the single empty entry, not the built-in list. *)
Theorem blank_allow_list (env : gmap string jsstring) (v : jsstring) :
  env !! "REACT_APP_ALLOWED_USER_EMAILS" = Some v -> v <> [] ->
  Forall (fun c => is_white_space c = true) v ->
  ALLOWED_USER_EMAILS (config env) = [[]].
Proof.
  intros Hv Hne Hws. rewrite config_allowed, Hv.
  destruct v as [|c r]; [done|].
  rewrite split_free by by apply white_space_no_comma.
  simpl map. by rewrite trim_blank.
Qed.

Lemma blank_allow_list_witness :
  ALLOWED_USER_EMAILS
    (config (<["REACT_APP_ALLOWED_USER_EMAILS" := [32; 9; 160]%N]> ∅))
  = [[]].
Proof.
  apply (blank_allow_list _ [32; 9; 160]%N); [done | done |].
  by repeat constructor.
Defined.

(** X9. The endpoint, the database, the SMTP host and the SMTP port are
    never the empty string, and so every request the page submits names a
    non-empty endpoint and a non-empty database. *)
Theorem targets_never_empty (env : gmap string jsstring) :
  ODOO_URL (config env) <> [] /\ ODOO_DB (config env) <> []
  /\ DEFAULT_SMTP_SERVER (config env) <> []
  /\ DEFAULT_SMTP_PORT (config env) <> []
  /\ (forall s f, reachable env s -> f ∈ submitted (log s) ->
        exists u d, f !! "url" = Some u /\ f !! "database" = Some d
                    /\ u <> [] /\ d <> []).
Proof.
  destruct (config_strings env) as (Hu & Hd & _ & _ & Hs & Hp).
  assert (ODOO_URL (config env) <> []) as Hurl
    by (rewrite Hu; by apply or_else_nonempty).
  assert (ODOO_DB (config env) <> []) as Hdb
    by (rewrite Hd; by apply or_else_nonempty).
  split_and!; [done | done | | |].
  - rewrite Hs. by apply or_else_nonempty.
  - rewrite Hp. by apply or_else_nonempty.
  - intros s f Hreach Hf.
    destruct (reachable_invariant env s Hreach) as [_ _ _ _ Hsub _].
    destruct (Hsub f Hf) as (Hfu & Hfd & _). eauto 10.
Qed.

(* ===================================================================== *)
(** ** More about the login page *)
(* ===================================================================== *)

Lemma run_cons (ev : Event) (evs : list Event) (s : App) :
  run (ev :: evs) s = run evs (dispatch ev s).
Proof. reflexivity. Qed.

Lemma dispatch_change_username (text : jsstring) (s : App) :
  dispatch (Change 0 text) s
  = {| cfg := cfg s; auth := auth s;
       page := {| form := <["username" := text]> (form (page s));
                  showPassword := showPassword (page s) |};
       log := log s |}.
Proof. reflexivity. Qed.

Lemma dispatch_change_password (text : jsstring) (s : App) :
  dispatch (Change 1 text) s
  = {| cfg := cfg s; auth := auth s;
       page := {| form := <["password" := text]> (form (page s));
                  showPassword := showPassword (page s) |};
       log := log s |}.
Proof. reflexivity. Qed.

(** X10. What is typed into an input is what the input shows next: after
    a change event on a rendered input that input's value is the new
    text, the other input keeps its value, and nothing is logged, so no
    request leaves the page on a keystroke. *)
Theorem typed_text_shown (s : App) (i : nat) (el : InputEl)
  (text : jsstring) :
  render_inputs (page s) !! i = Some el ->
  value <$> render_inputs (page (dispatch (Change i text) s)) !! i
  = Some (Some text)
  /\ (forall j, j <> i ->
        value <$> render_inputs (page (dispatch (Change i text) s)) !! j
        = value <$> render_inputs (page s) !! j)
  /\ log (dispatch (Change i text) s) = log s.
Proof.
  intros Hel. destruct i as [|[|i]]; [| |done]; split_and!; try reflexivity.
  - cbn. by rewrite lookup_insert_eq.
  - intros [|[|j]] Hj; [done | | done]. cbn. by rewrite lookup_insert_ne.
  - cbn. by rewrite lookup_insert_eq.
  - intros [|[|j]] Hj; [| done | done]. cbn. by rewrite lookup_insert_ne.
Qed.

Lemma typed_text_shown_witness :
  value <$> render_inputs
              (page (dispatch (Change 1 (lit "hunter2")) (mount ∅ anonymous)))
            !! 1
  = Some (Some (lit "hunter2")).
Proof.
  eapply (typed_text_shown (mount ∅ anonymous) 1). reflexivity.
Defined.

(** X11. The last change wins: two change events on the same input leave
    the page as the second alone would. *)
Theorem last_change_wins (s : App) (i : nat) (t1 t2 : jsstring) :
  dispatch (Change i t2) (dispatch (Change i t1) s)
  = dispatch (Change i t2) s.
Proof.
  destruct i as [|[|i]]; [| |done];
    rewrite ?dispatch_change_username, ?dispatch_change_password;
    cbn [cfg auth page log form showPassword]; by rewrite insert_insert_eq.
Qed.

(** X12. Changes to different inputs do not interfere: they can be
    applied in either order. *)
Theorem changes_commute (s : App) (i j : nat) (a b : jsstring) :
  i <> j ->
  dispatch (Change i a) (dispatch (Change j b) s)
  = dispatch (Change j b) (dispatch (Change i a) s).
Proof.
  intros Hne. destruct i as [|[|i]], j as [|[|j]]; try done;
    rewrite ?dispatch_change_username, ?dispatch_change_password;
    cbn [cfg auth page log form showPassword]; by rewrite insert_insert_ne.
Qed.

Lemma changes_commute_witness :
  dispatch (Change 0 (lit "bob"))
    (dispatch (Change 1 (lit "hunter2")) (mount ∅ anonymous))
  = dispatch (Change 1 (lit "hunter2"))
      (dispatch (Change 0 (lit "bob")) (mount ∅ anonymous)).
Proof. apply changes_commute. lia. Defined.

(** X13. The show/hide button only changes how the password is shown:
    clicking it keeps the form, the log and the values of both inputs,
    flips the type of the password input between ["password"] and
    ["text"], and clicking twice restores the page. *)
Theorem show_password_toggle (s : App) :
  form (page (dispatch ClickShow s)) = form (page s)
  /\ log (dispatch ClickShow s) = log s
  /\ map value (render_inputs (page (dispatch ClickShow s)))
     = map value (render_inputs (page s))
  /\ type <$> render_inputs (page (dispatch ClickShow s)) !! 1
     = Some (Some (if showPassword (page s) then "password" else "text"))
  /\ dispatch ClickShow (dispatch ClickShow s) = s.
Proof.
  split_and!; try reflexivity.
  - cbn. by destruct (showPassword (page s)).
  - destruct s as [c a [f []] l]; reflexivity.
Qed.

Lemma request_lookup (c : Config) (u p : jsstring) (k : string) :
  request c u p !! k =
    if decide (k = "url") then Some (ODOO_URL c)
    else if decide (k = "database") then Some (ODOO_DB c)
    else if decide (k = "username") then Some u
    else if decide (k = "password") then Some p
    else None.
Proof.
  unfold request. repeat case_decide; subst; simplify_map_eq; done.
Qed.

Lemma form_fields_elem (k : string) :
  k ∈ form_fields <->
  k = "url" \/ k = "database" \/ k = "username" \/ k = "password".
Proof.
  unfold form_fields. rewrite !elem_of_union, !elem_of_singleton. tauto.
Qed.

(** X14. What is submitted is what was typed: after typing a user name
    and a password and submitting, the last call of [connectToOdoo] has
    exactly the configured endpoint and database and the two texts. *)
Theorem submitted_request (env : gmap string jsstring) (s : App)
  (u p : jsstring) :
  reachable env s ->
  last (submitted (log (run [Change 0 u; Change 1 p; Submit] s)))
  = Some (request (config env) u p).
Proof.
  intros Hs. destruct (reachable_invariant env s Hs) as [_ Hurl Hdb Hdom _ _].
  unfold run. cbn [fold_left].
  rewrite dispatch_change_username, dispatch_change_password.
  cbn [dispatch cfg auth page log form showPassword].
  rewrite submit_log, submitted_app. cbn [form].
  change (submitted [PreventDefault; ConnectToOdoo ?f]) with [f].
  rewrite last_snoc. f_equal. apply map_eq. intros k.
  rewrite request_lookup. repeat case_decide; subst.
  - by rewrite !lookup_insert_ne.
  - by rewrite !lookup_insert_ne.
  - by rewrite lookup_insert_ne, lookup_insert_eq.
  - by rewrite lookup_insert_eq.
  - rewrite !lookup_insert_ne by done. apply not_elem_of_dom.
    rewrite Hdom, form_fields_elem. tauto.
Qed.

Lemma submitted_request_witness :
  last (submitted
          (log (run [Change 0 (lit "bob"); Change 1 (lit "hunter2"); Submit]
                  (run [Change 0 (lit "alice"); ClickShow; Submit]
                     (mount ∅ anonymous)))))
  = Some (request (config ∅) (lit "bob") (lit "hunter2")).
Proof.
  apply submitted_request. apply run_reachable. constructor.
Defined.

Lemma dispatch_submitted (ev : Event) (s : App) :
  submitted (log (dispatch ev s))
  = submitted (log s)
    ++ match ev with Submit => [form (page s)] | _ => [] end.
Proof.
  destruct ev as [i text| | |a]; cbn [dispatch log].
  - rewrite app_nil_r. by destruct (render_inputs (page s) !! i).
  - by rewrite app_nil_r.
  - by rewrite submit_log, submitted_app.
  - destruct (rerun_log (auth s) a (log s)) as (rest & -> & _ & Hnone).
    by rewrite submitted_app, Hnone.
Qed.

Lemma run_submitted_length (evs : list Event) (s : App) :
  length (submitted (log (run evs s)))
  = length (submitted (log s)) + submits evs.
Proof.
  revert s. induction evs as [|ev evs IH]; intros s.
  - change (submits []) with 0. by rewrite Nat.add_0_r.
  - rewrite run_cons, IH, dispatch_submitted, length_app.
    destruct ev;
      [change (submits (?e :: evs)) with (submits evs) ..
      | change (submits (Submit :: evs)) with (S (submits evs))
      | change (submits (?e :: evs)) with (submits evs)];
      cbn [length]; lia.
Qed.

Lemma mount_submitted (env : gmap string jsstring) (a : AuthContext) :
  submitted (log (mount env a)) = [].
Proof.
  rewrite mount_eq. cbn [log].
  destruct (redirect_log a (map EnvRead (load_reads env)))
    as (rest & -> & _ & Hnone).
  by rewrite submitted_app, submitted_reads, Hnone.
Qed.

(** X15. Only submitting calls [connectToOdoo], and every submit does:
    the number of calls made since the page was mounted is the number of
    submit events. *)
Theorem one_call_per_submit (env : gmap string jsstring) (a : AuthContext)
  (evs : list Event) :
  length (submitted (log (run evs (mount env a)))) = submits evs.
Proof. by rewrite run_submitted_length, mount_submitted. Qed.

(** X18. Submitting does not clear the form: [n] submits in a row call
    [connectToOdoo] [n] times with the same request, the password
    included, and leave the component's state as it was. *)
Theorem repeated_submit (s : App) (n : nat) :
  submitted (log (run (replicate n Submit) s))
  = submitted (log s) ++ replicate n (form (page s))
  /\ page (run (replicate n Submit) s) = page s.
Proof.
  revert s. induction n as [|n IH]; intros s.
  - by rewrite app_nil_r.
  - cbn [replicate]. rewrite run_cons.
    destruct (IH (dispatch Submit s)) as (-> & ->).
    rewrite dispatch_submitted, <- app_assoc. done.
Qed.

Lemma navigations_app (l1 l2 : list Effect) :
  navigations (l1 ++ l2) = navigations l1 ++ navigations l2.
Proof. apply omap_app. Qed.

Lemma navigations_reads (vars : list string) :
  navigations (map EnvRead vars) = [].
Proof. induction vars; [reflexivity | assumption]. Qed.

Lemma redirect_navigations (a : AuthContext) (l : list Effect) :
  navigations (snd (redirectEffect a l))
  = navigations l ++ (if isConnected a then [(lit "/", true)] else []).
Proof.
  unfold redirectEffect, emit, ret. destruct (isConnected a); simpl.
  - by rewrite navigations_app.
  - by rewrite app_nil_r.
Qed.

Lemma dispatch_navigations (ev : Event) (s : App) :
  navigations (log (dispatch ev s))
  = navigations (log s)
    ++ match ev with
       | AuthChanged a =>
           if isConnected a && negb (isConnected (auth s))
           then [(lit "/", true)] else []
       | _ => []
       end.
Proof.
  destruct ev as [i text| | |a]; cbn [dispatch log].
  - rewrite app_nil_r. by destruct (render_inputs (page s) !! i).
  - by rewrite app_nil_r.
  - rewrite submit_log, navigations_app. reflexivity.
  - unfold rerunEffect. case_bool_decide as Hsame.
    + rewrite Hsame. cbn [ret snd]. destruct (isConnected a); simpl;
        by rewrite app_nil_r.
    + rewrite redirect_navigations.
      destruct (isConnected a), (isConnected (auth s)); done.
Qed.

Lemma mount_navigations (env : gmap string jsstring) (a : AuthContext) :
  navigations (log (mount env a))
  = if isConnected a then [(lit "/", true)] else [].
Proof.
  rewrite mount_eq. cbn [log].
  by rewrite redirect_navigations, navigations_reads.
Qed.

Lemma run_never_connected (evs : list Event) (s : App) :
  (forall a', AuthChanged a' ∈ evs -> isConnected a' = false) ->
  navigations (log (run evs s)) = navigations (log s).
Proof.
  revert s. induction evs as [|ev evs IH]; intros s H; [done|].
  rewrite run_cons, IH by (intros a' Ha'; apply H; by right).
  rewrite dispatch_navigations. destruct ev as [| | |a]; try apply app_nil_r.
  rewrite (H a) by by left. apply app_nil_r.
Qed.

(** X16. The page does not leave on its own: as long as no auth context
    reports a connection, nothing the user does (typing, toggling,
    submitting) makes it navigate. *)
Theorem never_navigates_unconnected (env : gmap string jsstring)
  (a : AuthContext) (evs : list Event) :
  never_connected a evs ->
  navigations (log (run evs (mount env a))) = [].
Proof.
  intros (Ha & Hevs). rewrite run_never_connected by done.
  by rewrite mount_navigations, Ha.
Qed.

Lemma never_navigates_unconnected_witness :
  navigations
    (log (run [Change 0 (lit "bob"); Submit; AuthChanged anonymous; ClickShow]
            (mount ∅ anonymous)))
  = [].
Proof.
  apply never_navigates_unconnected. split; [reflexivity|].
  intros a' Ha'. apply list_elem_of_In in Ha'. simpl in Ha'.
  destruct Ha' as [H | [H | [H | [H | []]]]]; try discriminate.
  by injection H as <-.
Defined.

Lemma run_navigations (evs : list Event) (s : App) :
  Forall (fun n => n = (lit "/", true)) (navigations (log s)) ->
  Forall (fun n => n = (lit "/", true)) (navigations (log (run evs s))).
Proof.
  revert s. induction evs as [|ev evs IH]; intros s H; [done|].
  rewrite run_cons. apply IH. rewrite dispatch_navigations.
  apply Forall_app. split; [done|].
  destruct ev as [| | |a]; try constructor.
  destruct (isConnected a && negb (isConnected (auth s)));
    by repeat constructor.
Qed.

(** X20. The only place the page ever navigates to is ["/"], replacing the
    history entry; a page mounted while connected does so at once, and a
    later auth context does so exactly when it turns a disconnected page
    into a connected one. *)
Theorem navigates_home_only (env : gmap string jsstring) (a : AuthContext)
  (evs : list Event) :
  Forall (fun n => n = (lit "/", true))
    (navigations (log (run evs (mount env a))))
  /\ navigations (log (mount env a))
     = (if isConnected a then [(lit "/", true)] else [])
  /\ (forall s a',
        navigations (log (dispatch (AuthChanged a') s))
        = navigations (log s)
          ++ (if isConnected a' && negb (isConnected (auth s))
              then [(lit "/", true)] else [])).
Proof.
  split_and!.
  - apply run_navigations. rewrite mount_navigations.
    destruct (isConnected a); by repeat constructor.
  - apply mount_navigations.
  - intros s a'. apply dispatch_navigations.
Qed.

(** X17. Both inputs stay controlled: in every reachable state the
    [username] and the [password] input have a defined value. *)
Theorem inputs_controlled (env : gmap string jsstring) (s : App) :
  reachable env s ->
  Forall (fun el => is_Some (value el)) (render_inputs (page s)).
Proof.
  intros Hs. destruct (reachable_invariant env s Hs) as [_ _ _ Hdom _ _].
  repeat constructor; cbn [value]; apply elem_of_dom; rewrite Hdom;
    apply form_fields_elem; tauto.
Qed.

Lemma inputs_controlled_witness :
  Forall (fun el => is_Some (value el))
    (render_inputs
       (page (run [Change 0 (lit "bob"); Change 1 (lit "hunter2"); ClickShow]
                (mount ∅ anonymous)))).
Proof. exact (inputs_controlled ∅ _ typed_reachable). Defined.

Lemma run_show_password (evs : list Event) (s : App) :
  showPassword (page (run evs s))
  = xorb (showPassword (page s)) (Nat.odd (clicks evs)).
Proof.
  revert s. induction evs as [|ev evs IH]; intros s.
  - change (clicks []) with 0. by rewrite xorb_false_r.
  - rewrite run_cons, IH. destruct ev as [i text| | |a].
    + change (clicks (Change i text :: evs)) with (clicks evs).
      cbn [dispatch]. by destruct (render_inputs (page s) !! i).
    + change (clicks (ClickShow :: evs)) with (S (clicks evs)).
      rewrite Nat.odd_succ, <- Nat.negb_odd. cbn.
      by destruct (showPassword (page s)), (Nat.odd (clicks evs)).
    + done.
    + done.
Qed.

(** X19. The password is shown as text exactly when the show/hide button
    has been clicked an odd number of times since the page was mounted;
    it starts hidden, and no other event reveals it. *)
Theorem password_shown_iff_odd_clicks (env : gmap string jsstring)
  (a : AuthContext) (evs : list Event) :
  showPassword (page (run evs (mount env a))) = Nat.odd (clicks evs)
  /\ type <$> render_inputs (page (run evs (mount env a))) !! 1
     = Some (Some (if Nat.odd (clicks evs) then "text" else "password")).
Proof.
  assert (showPassword (page (run evs (mount env a))) = Nat.odd (clicks evs))
    as H by (by rewrite run_show_password, mount_eq).
  split; [exact H|]. cbn. by rewrite H.
Qed.
